(** * gozk-recipes: the ZooKeeper session manager (session/session.go)

    A shallow embedding of [ZKSession]: its processing loop [manage], the
    subscriber registry ([Subscribe], [notifySubscribers]), the defaulting of
    [NewSessionWithOpts] and the pass-through data operations.

    The Go code is stateful: it mutates the [ZKSession] struct behind the
    pointer [s], talks to the gozk client library and writes to channels.
    Here a computation is a function from the current [World] to an outcome,
    the next [World] and the list of effects it performed, in order. *)

From Stdlib Require Import ZArith List Bool String Lia.
Import ListNotations.
Open Scope string_scope.
Open Scope Z_scope.
Open Scope list_scope.

Set Implicit Arguments.

(** ** The Go standard library pieces that session.go uses *)

Module time.
(** [time.Duration] is a count of nanoseconds. *)
Definition Duration := Z.
Definition Second : Duration := 1000000000.
End time.

Module strings.
(** [strings.Join(elems, sep)]. *)
Definition Join (elems : list string) (sep : string) : string :=
  String.concat sep elems.
End strings.

(** A Go [error] value is kept as its message; [None] is the nil error. *)
Definition error := string.

(** ** The gozk client library, as far as session.go sees it *)

Module zookeeper.

(** The connection states carried by [Event.State].  session.go switches
    on the named constants only; their values are those of gozk. *)
Definition STATE_EXPIRED_SESSION : Z := -112.
Definition STATE_AUTH_FAILED : Z := -113.
Definition STATE_CONNECTING : Z := 1.
Definition STATE_ASSOCIATING : Z := 2.
Definition STATE_CONNECTED : Z := 3.
Definition STATE_CLOSED : Z := 0.

Record Event := { Type_ : Z; Path : string; State : Z }.

Record ClientId := { session_id : Z; passwd : string }.

Record Stat := { Version : Z; DataLength : Z; NumChildren : Z }.

Record ACL := { Perms : Z; Scheme : string; Id : string }.

Definition ChangeFunc := string -> option Stat -> string * option error.

(** A [*zookeeper.Conn] that is not nil, by identity. *)
Definition Conn := nat.

(** A [<-chan zookeeper.Event]: the channel's identity and the signals the
    client library delivers on it that have not been received yet, oldest
    first.  Receiving removes the head; the channel stays the same.  (What
    a receive from a closed channel yields, the zero [Event], is one more
    signal with state [STATE_CLOSED].) *)
Record EventChan := { chan_id : nat; pending : list Event }.

(** What [zookeeper.Redial] returns: a handle and its signal stream when
    the error is nil, the error otherwise. *)
Inductive RedialResult :=
| RedialOk (conn : Conn) (events : EventChan)
| RedialErr (err : error).

(** The library itself is outside this repository.  It is a collaborator
    whose answers are arbitrary: one function per entry point session.go
    calls.  [Redial] also receives the number of dials made before, so
    that two dials with the same arguments may end differently. *)
Record Client := {
  Redial : nat -> string -> time.Duration -> option ClientId -> RedialResult;
  Close : Conn -> option error;
  ClientId_ : Conn -> option ClientId;
  ConnectedServer : Conn -> string;
  CurrentServer : Conn -> string * option error;
  ACL_ : Conn -> string -> list ACL * option Stat * option error;
  AddAuth : Conn -> string -> string -> option error;
  Children : Conn -> string -> list string * option Stat * option error;
  ChildrenW : Conn -> string ->
              list string * option Stat * option EventChan * option error;
  Create : Conn -> string -> string -> Z -> list ACL -> string * option error;
  Delete : Conn -> string -> Z -> option error;
  Exists_ : Conn -> string -> option Stat * option error;
  ExistsW : Conn -> string -> option Stat * option EventChan * option error;
  Get : Conn -> string -> string * option Stat * option error;
  GetW : Conn -> string ->
         string * option Stat * option EventChan * option error;
  Set_ : Conn -> string -> string -> Z -> option Stat * option error;
  RetryChange : Conn -> string -> Z -> list ACL -> ChangeFunc -> option error;
  SetACL : Conn -> string -> list ACL -> Z -> option error;
  SetServersResolutionDelay : Conn -> time.Duration -> unit
}.

End zookeeper.

(** ** Data model of package session *)

(** [type ZKSessionEvent uint] with its five constants. *)
Inductive ZKSessionEvent :=
| SessionClosed
| SessionDisconnected
| SessionReconnected
| SessionExpiredReconnected
| SessionFailed.

(** The [iota] numbering of the constant block. *)
Definition ZKSessionEvent_uint (e : ZKSessionEvent) : Z :=
  match e with
  | SessionClosed => 0
  | SessionDisconnected => 1
  | SessionReconnected => 2
  | SessionExpiredReconnected => 3
  | SessionFailed => 4
  end.

Definition DefaultRecvTimeout : time.Duration := 5 * time.Second.

(** An argument handed to [Printf]. *)
Inductive LogArg :=
| ArgConn (c : option zookeeper.Conn)
| ArgErr (e : error)
| ArgStr (s : string).

(** [stdLogger] is an interface with the single method [Printf].  A value of
    the interface is given by what a call of its method writes. *)
Record stdLogger := { Printf : string -> list LogArg -> list string }.

(** [func (l *nullLogger) Printf(format string, v ...interface{}) {}] *)
Definition nullLogger : stdLogger := {| Printf := fun _ _ => [] |}.

(** [SessionOpts] is declared in a file of the package that is not part of
    the sources at hand; these are the four fields session.go reads and
    writes, with the types it uses them at. *)
Record SessionOpts := {
  servers : list string;
  recvTimeout : time.Duration;
  logger : stdLogger;
  clientID : option zookeeper.ClientId
}.

Definition SessionOpt := SessionOpts -> SessionOpts.

(** A [chan<- ZKSessionEvent] handed to [Subscribe], by identity. *)
Definition SubChan := nat.

(** [type ZKSession struct].  [conn] is a pointer and may be nil; [mu] is
    [true] while some goroutine holds the mutex. *)
Record ZKSession := {
  opts : SessionOpts;
  conn : option zookeeper.Conn;
  events : zookeeper.EventChan;
  mu : bool;
  subscriptions : list SubChan;
  log : stdLogger
}.

(** ** Effects *)

(** A method call on a [*zookeeper.Conn], with the arguments it is given. *)
Inductive Request :=
| ReqClose
| ReqClientId
| ReqConnectedServer
| ReqCurrentServer
| ReqSetServersResolutionDelay (delay : time.Duration)
| ReqACL (path : string)
| ReqAddAuth (scheme cert : string)
| ReqChildren (path : string)
| ReqChildrenW (path : string)
| ReqCreate (path value : string) (flags : Z) (aclv : list zookeeper.ACL)
| ReqDelete (path : string) (version : Z)
| ReqExists (path : string)
| ReqExistsW (path : string)
| ReqGet (path : string)
| ReqGetW (path : string)
| ReqSet (path value : string) (version : Z)
| ReqRetryChange (path : string) (flags : Z) (acl : list zookeeper.ACL)
                 (changeFunc : zookeeper.ChangeFunc)
| ReqSetACL (path : string) (aclv : list zookeeper.ACL) (version : Z).

(** The fields of [ZKSession] that are assigned to after construction. *)
Inductive Field := f_opts | f_conn | f_events | f_subscriptions.

(** What a computation does that can be seen from outside, or that a data
    race would be about. *)
Inductive Action :=
| ARecv (ev : zookeeper.Event)       (* event := <-s.events *)
| ARedial (addrs : string) (timeout : time.Duration)
          (cid : option zookeeper.ClientId) (res : zookeeper.RedialResult)
                                     (* zookeeper.Redial(addrs, timeout, cid),
                                        and what it returned *)
| ACall (c : zookeeper.Conn) (req : Request)
                                     (* a method of the handle c is called *)
| ALock                              (* s.mu.Lock() returns *)
| AUnlock                            (* s.mu.Unlock() *)
| AWrite (f : Field)                 (* an assignment to a field of s *)
| ANotify (e : ZKSessionEvent)       (* entry into s.notifySubscribers(e):
                                        the loop emits e *)
| ASend (sub : SubChan) (e : ZKSessionEvent)
                                     (* subscriber <- event *)
| ALog (line : string).              (* a line the session's logger writes *)

(** The state outside the loop's local variable: the struct behind [s] and
    the number of dials made so far. *)
Record World := { sess : ZKSession; dials : nat }.

(** How a computation ends: with a result; waiting, for a mutex that is
    held or for a signal on a stream that has none; or by the panic of a nil
    pointer dereference. *)
Inductive Outcome (A : Type) :=
| Done (a : A)
| Parked
| Panicked.

Arguments Parked {A}.
Arguments Panicked {A}.

Record Run (A : Type) := MkRun {
  out : Outcome A;
  post : World;
  acts : list Action
}.

Definition M (A : Type) := World -> Run A.

Definition ret {A} (a : A) : M A := fun w => MkRun (Done a) w [].

Definition bind {A B} (m : M A) (f : A -> M B) : M B :=
  fun w =>
    let r := m w in
    match out r with
    | Done a => let r' := f a (post r) in
                MkRun (out r') (post r') (acts r ++ acts r')
    | Parked => MkRun Parked (post r) (acts r)
    | Panicked => MkRun Panicked (post r) (acts r)
    end.

Notation "x <- m ;; k" := (bind m (fun x => k))
  (at level 61, m at next level, right associativity).
Notation "m ;; k" := (bind m (fun _ => k))
  (at level 61, right associativity).

Definition gets {A} (f : ZKSession -> A) : M A :=
  fun w => MkRun (Done (f (sess w))) w [].

Definition modify (f : ZKSession -> ZKSession) : M unit :=
  fun w => MkRun (Done tt) {| sess := f (sess w); dials := dials w |} [].

Definition emit (a : Action) : M unit := fun w => MkRun (Done tt) w [a].

Definition park {A} : M A := fun w => MkRun Parked w [].

Definition panic {A} : M A := fun w => MkRun Panicked w [].

(** Field assignments. *)
Definition with_opts (o : SessionOpts) (s : ZKSession) : ZKSession :=
  {| opts := o; conn := conn s; events := events s; mu := mu s;
     subscriptions := subscriptions s; log := log s |}.

Definition with_conn (c : option zookeeper.Conn) (s : ZKSession) : ZKSession :=
  {| opts := opts s; conn := c; events := events s; mu := mu s;
     subscriptions := subscriptions s; log := log s |}.

Definition with_events (ch : zookeeper.EventChan) (s : ZKSession) : ZKSession :=
  {| opts := opts s; conn := conn s; events := ch; mu := mu s;
     subscriptions := subscriptions s; log := log s |}.

Definition with_mu (b : bool) (s : ZKSession) : ZKSession :=
  {| opts := opts s; conn := conn s; events := events s; mu := b;
     subscriptions := subscriptions s; log := log s |}.

Definition with_subscriptions (l : list SubChan) (s : ZKSession) : ZKSession :=
  {| opts := opts s; conn := conn s; events := events s; mu := mu s;
     subscriptions := l; log := log s |}.

Definition assign (f : Field) (upd : ZKSession -> ZKSession) : M unit :=
  modify upd ;; emit (AWrite f).

(** [s.mu.Lock()]: waits while the mutex is held. *)
Definition Lock : M unit :=
  held <- gets mu ;;
  if held then park else modify (with_mu true) ;; emit ALock.

(** [s.mu.Unlock()] *)
Definition Unlock : M unit :=
  modify (with_mu false) ;; emit AUnlock.

(** [s.log.Printf(format, v...)] *)
Definition logf (format : string) (v : list LogArg) : M unit :=
  fun w => MkRun (Done tt) w (map ALog (Printf (log (sess w)) format v)).

(** [for _, x := range xs { body(x) }] *)
Fixpoint for_range {A} (xs : list A) (body : A -> M unit) : M unit :=
  match xs with
  | [] => ret tt
  | x :: xs' => body x ;; for_range xs' body
  end.

(** ** The subscriber registry *)

(** [func (s *ZKSession) Subscribe(subscription chan<- ZKSessionEvent)] *)
Definition Subscribe (subscription : SubChan) : M unit :=
  Lock ;;
  subs <- gets subscriptions ;;
  assign f_subscriptions (with_subscriptions (subs ++ [subscription])) ;;
  Unlock.

(** [func (s *ZKSession) notifySubscribers(event ZKSessionEvent)].  A send
    completes once the subscriber takes the event; subscribers are taken to
    keep up, which is the contract the package asks of them. *)
Definition notifySubscribers (event : ZKSessionEvent) : M unit :=
  emit (ANotify event) ;;
  Lock ;;
  subs <- gets subscriptions ;;
  for_range subs (fun subscriber => emit (ASend subscriber event)) ;;
  Unlock.

(** ** The processing loop *)

(** How one pass through the body of [for { select { ... } }] ends:
    [Continue expired] goes round again with that value of the local
    variable [expired]; [Return] leaves [manage]. *)
Inductive Flow := Continue (expired : bool) | Return.

Section Session.

Context (zk : zookeeper.Client).

(** [WithZookeeperClientID] is one of the option builders.  It is declared
    next to [SessionOpts], in the file that is not among the sources at
    hand, so the loop is given it as a parameter. *)
Variable WithZookeeperClientID : option zookeeper.ClientId -> SessionOpt.

(** [event := <-s.events] *)
Definition recv_events : M zookeeper.Event :=
  ch <- gets events ;;
  match zookeeper.pending ch with
  | [] => park
  | event :: rest =>
      modify (with_events {| zookeeper.chan_id := zookeeper.chan_id ch;
                             zookeeper.pending := rest |}) ;;
      emit (ARecv event) ;;
      ret event
  end.

(** [zookeeper.Redial(addrs, timeout, cid)] *)
Definition redial (addrs : string) (timeout : time.Duration)
                  (cid : option zookeeper.ClientId)
  : M zookeeper.RedialResult :=
  fun w =>
    let res := zookeeper.Redial zk (dials w) addrs timeout cid in
    MkRun (Done res) {| sess := sess w; dials := S (dials w) |}
          [ARedial addrs timeout cid res].

(** A method call on a handle that is known not to be nil: the call is
    made once, and its result is the library's. *)
Definition call {A} (c : zookeeper.Conn) (req : Request) (answer : A) : M A :=
  emit (ACall c req) ;; ret answer.

(** One pass through the loop body of [manage] (lines 132-186), started
    with the given value of [expired]. *)
Definition manage_iter (expired : bool) : M Flow :=
  event <- recv_events ;;
  let state := zookeeper.State event in
  if state =? zookeeper.STATE_EXPIRED_SESSION then
    c0 <- gets conn ;;
    logf "gozk-recipes/session: got STATE_EXPIRED_SESSION for conn %+v"
         [ArgConn c0] ;;
    (* expired = true *)
    o <- gets opts ;;
    res <- redial (strings.Join (servers o) ",") (recvTimeout o) (clientID o) ;;
    match res with
    | zookeeper.RedialOk conn' events' =>
        logf "gozk-recipes/session: STATE_EXPIRED_SESSION redialed conn %+v"
             [ArgConn (Some conn')] ;;
        Lock ;;
        old <- gets conn ;;
        match old with
        | Some c =>
            err <- call c ReqClose (zookeeper.Close zk c) ;;
            match err with
            | Some e =>
                logf "gozk-recipes/session: error in closing existing zookeeper connection: %v"
                     [ArgErr e]
            | None => ret tt
            end
        | None => ret tt
        end ;;
        assign f_conn (with_conn (Some conn')) ;;
        assign f_events (with_events events') ;;
        id <- call conn' ReqClientId (zookeeper.ClientId_ zk conn') ;;
        o' <- gets opts ;;
        assign f_opts (with_opts (WithZookeeperClientID id o')) ;;
        Unlock ;;
        now <- gets conn ;;
        match now with
        | Some c =>
            server <- call c ReqConnectedServer (zookeeper.ConnectedServer zk c) ;;
            logf "gozk-recipes/session: session re-established with %s"
                 [ArgStr server]
        | None => panic
        end ;;
        ret (Continue true)
    | zookeeper.RedialErr err =>
        notifySubscribers SessionFailed ;;
        logf "gozk-recipes/session.SessionFailed: %s, session terminated"
             [ArgStr err] ;;
        ret Return
    end
  else if state =? zookeeper.STATE_AUTH_FAILED then
    notifySubscribers SessionFailed ;;
    logf "gozk-recipes/session.SessionFailed: zookeeper.STATE_AUTH_FAILURE, session terminated" [] ;;
    ret Return
  else if state =? zookeeper.STATE_CONNECTING then
    notifySubscribers SessionDisconnected ;;
    logf "gozk-recipes/session.SessionDisconnected: attempting to reconnect" [] ;;
    ret (Continue expired)
  else if state =? zookeeper.STATE_ASSOCIATING then
    (* No action to take, this is fine. *)
    ret (Continue expired)
  else if state =? zookeeper.STATE_CONNECTED then
    if expired then
      notifySubscribers SessionExpiredReconnected ;;
      logf "gozk-recipes/session.SessionExpiredReconnected: all ephemeral nodes purged" [] ;;
      ret (Continue false)
    else
      notifySubscribers SessionReconnected ;;
      logf "gozk-recipes/session.SessionReconnected: reconnected before timed out" [] ;;
      ret (Continue expired)
  else if state =? zookeeper.STATE_CLOSED then
    notifySubscribers SessionClosed ;;
    logf "gozk-recipes/session.SessionClosed: normally caused by call to Close(), session terminated" [] ;;
    ret Return
  else
    ret (Continue expired).

(** [func (s *ZKSession) manage()]: [expired := false], then the loop.
    The loop has no bound of its own; [n] bounds the number of passes
    looked at, and a pass that returns ends the run whatever is left. *)
Fixpoint manage_loop (n : nat) (expired : bool) : M unit :=
  match n with
  | O => ret tt
  | S n' =>
      flow <- manage_iter expired ;;
      match flow with
      | Continue expired' => manage_loop n' expired'
      | Return => ret tt
      end
  end.

Definition manage (n : nat) : M unit := manage_loop n false.

(** ** Construction *)

(** [SessionOpts.Create], which dials and builds the [ZKSession], is
    declared in the file that is not at hand; it is a parameter here.  It
    answers with the session and the state of the client library after the
    first dial, or with an error. *)
Variable SessionOpts_Create : SessionOpts -> World + error.

(** The options [NewSessionWithOpts] hands to [Create]: the literal of
    lines 74-77 (fields that are not named are zero), then every option
    applied in order (lines 79-81). *)
Definition sessionOpts (opts : list SessionOpt) : SessionOpts :=
  fold_left (fun so (o : SessionOpt) => o so) opts
    {| servers := []; recvTimeout := DefaultRecvTimeout;
       logger := nullLogger; clientID := None |}.

(** [func NewSessionWithOpts(opts ...SessionOpt)], which returns a session
    or an error.
    [go session.manage()] starts the loop: on success the result is the
    new session together with the fact that its loop is about to make its
    first pass with [expired = false]. *)
Definition NewSessionWithOpts (opts : list SessionOpt)
  : (World * bool) + error :=
  match SessionOpts_Create (sessionOpts opts) with
  | inl session => inl (session, false)
  | inr err => inr (String.append "creating zookeeper session: " err)
  end.

(** ** Pass-through operations *)

(** [s.conn.Method(args)]: [s.conn] is read and the method is called on
    it; a nil [s.conn] is a nil pointer dereference inside the library. *)
Definition through {A} (req : Request) (answer : zookeeper.Conn -> A) : M A :=
  c <- gets conn ;;
  match c with
  | Some c => call c req (answer c)
  | None => panic
  end.

Definition ZKSession_CurrentConnection : M (string * option error) :=
  through ReqCurrentServer (zookeeper.CurrentServer zk).

Definition ZKSession_CurrentServer : M string :=
  through ReqConnectedServer (zookeeper.ConnectedServer zk).

Definition ZKSession_SetServersResolutionDelay (delay : time.Duration)
  : M unit :=
  through (ReqSetServersResolutionDelay delay)
          (fun c => zookeeper.SetServersResolutionDelay zk c delay).

Definition ZKSession_ACL (path : string) :=
  through (ReqACL path) (fun c => zookeeper.ACL_ zk c path).

Definition ZKSession_AddAuth (scheme cert : string) :=
  through (ReqAddAuth scheme cert) (fun c => zookeeper.AddAuth zk c scheme cert).

Definition ZKSession_Children (path : string) :=
  through (ReqChildren path) (fun c => zookeeper.Children zk c path).

Definition ZKSession_ChildrenW (path : string) :=
  through (ReqChildrenW path) (fun c => zookeeper.ChildrenW zk c path).

Definition ZKSession_ClientId :=
  through ReqClientId (zookeeper.ClientId_ zk).

Definition ZKSession_Close :=
  through ReqClose (zookeeper.Close zk).

Definition ZKSession_Create (path value : string) (flags : Z)
                            (aclv : list zookeeper.ACL) :=
  through (ReqCreate path value flags aclv)
          (fun c => zookeeper.Create zk c path value flags aclv).

Definition ZKSession_Delete (path : string) (version : Z) :=
  through (ReqDelete path version) (fun c => zookeeper.Delete zk c path version).

Definition ZKSession_Exists (path : string) :=
  through (ReqExists path) (fun c => zookeeper.Exists_ zk c path).

Definition ZKSession_ExistsW (path : string) :=
  through (ReqExistsW path) (fun c => zookeeper.ExistsW zk c path).

Definition ZKSession_Get (path : string) :=
  through (ReqGet path) (fun c => zookeeper.Get zk c path).

Definition ZKSession_GetW (path : string) :=
  through (ReqGetW path) (fun c => zookeeper.GetW zk c path).

Definition ZKSession_Set (path value : string) (version : Z) :=
  through (ReqSet path value version)
          (fun c => zookeeper.Set_ zk c path value version).

Definition ZKSession_RetryChange (path : string) (flags : Z)
    (acl : list zookeeper.ACL) (changeFunc : zookeeper.ChangeFunc) :=
  through (ReqRetryChange path flags acl changeFunc)
          (fun c => zookeeper.RetryChange zk c path flags acl changeFunc).

Definition ZKSession_SetACL (path : string) (aclv : list zookeeper.ACL)
                            (version : Z) :=
  through (ReqSetACL path aclv version)
          (fun c => zookeeper.SetACL zk c path aclv version).

(** ** The session among its goroutines *)

(** Where the goroutine started by [go session.manage()] stands between
    two passes of its loop: about to make a pass, with the value [expired]
    has; gone, [manage] having returned; or stopped inside a pass, waiting
    for the mutex or by a panic. *)
Inductive Loop :=
| Running (expired : bool)
| Exited
| Stuck.

Record System := { loop : Loop; world : World }.

(** What the scheduler may do next: let the loop make one pass, or let a
    caller run [Subscribe].  A pass is taken as a whole; [Subscribe] only
    touches [subscriptions] under the mutex that [notifySubscribers]
    holds, so a call that falls inside a pass behaves as if it fell before
    or after it. *)
Inductive Op := Tick | CallSubscribe (c : SubChan).

Definition tick (sys : System) : System * list Action :=
  match loop sys with
  | Running expired =>
      match zookeeper.pending (events (sess (world sys))) with
      | [] => (sys, [])          (* no signal: the select waits *)
      | _ :: _ =>
          let r := manage_iter expired (world sys) in
          match out r with
          | Done (Continue expired') =>
              ({| loop := Running expired'; world := post r |}, acts r)
          | Done Return => ({| loop := Exited; world := post r |}, acts r)
          | Parked | Panicked => ({| loop := Stuck; world := post r |}, acts r)
          end
      end
  | Exited | Stuck => (sys, [])
  end.

Definition step (op : Op) (sys : System) : System * list Action :=
  match op with
  | Tick => tick sys
  | CallSubscribe c =>
      let r := Subscribe c (world sys) in
      ({| loop := loop sys; world := post r |}, acts r)
  end.

Fixpoint run (ops : list Op) (sys : System) : System * list Action :=
  match ops with
  | [] => (sys, [])
  | op :: ops' =>
      let '(sys1, l1) := step op sys in
      let '(sys2, l2) := run ops' sys1 in
      (sys2, l1 ++ l2)
  end.

End Session.

(** ** The registry on its own *)

(** The registry seen from outside: a caller registers a channel, or the
    loop broadcasts an event. *)
Inductive RegistryOp :=
| Register (c : SubChan)
| Broadcast (e : ZKSessionEvent).

Definition registry_step (op : RegistryOp) : M unit :=
  match op with
  | Register c => Subscribe c
  | Broadcast e => notifySubscribers e
  end.

Definition registry_run (ops : list RegistryOp) : M unit :=
  for_range ops registry_step.

Definition broadcasts (ops : list RegistryOp) : list ZKSessionEvent :=
  flat_map (fun op => match op with Broadcast e => [e] | Register _ => [] end)
           ops.

(** ** Reading a trace *)

(** The lifecycle events emitted, in order. *)
Definition emitted (l : list Action) : list ZKSessionEvent :=
  flat_map (fun a => match a with ANotify e => [e] | _ => [] end) l.

(** All sends, in order. *)
Definition sends (l : list Action) : list (SubChan * ZKSessionEvent) :=
  flat_map (fun a => match a with ASend c e => [(c, e)] | _ => [] end) l.

(** The events sent to one subscriber channel, in order. *)
Definition received (sub : SubChan) (l : list Action) : list ZKSessionEvent :=
  flat_map (fun a => match a with
                     | ASend c e => if Nat.eqb c sub then [e] else []
                     | _ => []
                     end) l.

(** The signals taken from the stream, in order. *)
Definition consumed (l : list Action) : list zookeeper.Event :=
  flat_map (fun a => match a with ARecv ev => [ev] | _ => [] end) l.

(** The dials made, in order: arguments and result. *)
Definition redials (l : list Action)
  : list (string * time.Duration * option zookeeper.ClientId
          * zookeeper.RedialResult) :=
  flat_map (fun a => match a with
                     | ARedial addrs t cid res => [(addrs, t, cid, res)]
                     | _ => []
                     end) l.

(** The fields assigned to, in order. *)
Definition writes (l : list Action) : list Field :=
  flat_map (fun a => match a with AWrite f => [f] | _ => [] end) l.

(** ** The transition table of the specification

    This part follows the words of the specification, not the code: the
    signals it names, and its table of section 4.1. *)

Inductive Signal :=
| Connecting
| Associating
| Connected
| SessionExpired (redial_succeeds : bool)
| AuthFailed
| Closed.

Record Row := {
  emits : option ZKSessionEvent;   (* column "Event emitted" *)
  expired_next : bool;             (* column "Action", on [expired] *)
  terminal : bool                  (* column "Terminal?" *)
}.

Definition table (sig : Signal) (expired : bool) : Row :=
  match sig with
  | Connecting =>
      {| emits := Some SessionDisconnected; expired_next := expired; terminal := false |}
  | Associating =>
      {| emits := None; expired_next := expired; terminal := false |}
  | Connected =>
      if expired
      then {| emits := Some SessionExpiredReconnected; expired_next := false; terminal := false |}
      else {| emits := Some SessionReconnected; expired_next := false; terminal := false |}
  | SessionExpired true =>
      {| emits := None; expired_next := true; terminal := false |}
  | SessionExpired false =>
      {| emits := Some SessionFailed; expired_next := true; terminal := true |}
  | AuthFailed =>
      {| emits := Some SessionFailed; expired_next := expired; terminal := true |}
  | Closed =>
      {| emits := Some SessionClosed; expired_next := expired; terminal := true |}
  end.

(** The event trace the table determines for a signal sequence: one row per
    signal, nothing after a terminal row. *)
Fixpoint table_events (expired : bool) (sigs : list Signal)
  : list ZKSessionEvent :=
  match sigs with
  | [] => []
  | sig :: rest =>
      let row := table sig expired in
      match emits row with Some e => [e] | None => [] end
      ++ (if terminal row then [] else table_events (expired_next row) rest)
  end.

(** [Closed] and [Failed] are the terminal events. *)
Definition is_terminal (e : ZKSessionEvent) : bool :=
  match e with
  | SessionClosed | SessionFailed => true
  | _ => false
  end.

Definition redial_succeeds (res : zookeeper.RedialResult) : bool :=
  match res with
  | zookeeper.RedialOk _ _ => true
  | zookeeper.RedialErr _ => false
  end.

Definition signal_of_state (state : Z) : option Signal :=
  if state =? zookeeper.STATE_CONNECTING then Some Connecting
  else if state =? zookeeper.STATE_ASSOCIATING then Some Associating
  else if state =? zookeeper.STATE_CONNECTED then Some Connected
  else if state =? zookeeper.STATE_AUTH_FAILED then Some AuthFailed
  else if state =? zookeeper.STATE_CLOSED then Some Closed
  else None.

(** The signal sequence a trace stands for.  A received state is named by the
    constant it equals; an expired session is paired with the outcome of the
    redial that answers it, which is the next dial in the trace.  A state
    that is none of the six stands for no signal of the specification. *)
Definition signal_of_action (a : Action) : list Signal :=
  match a with
  | ARecv ev =>
      match signal_of_state (zookeeper.State ev) with
      | Some sig => [sig]
      | None => []
      end
  | ARedial _ _ _ res => [SessionExpired (redial_succeeds res)]
  | _ => []
  end.

Definition signals (l : list Action) : list Signal :=
  flat_map signal_of_action l.

(** Whether the loop still runs after the signals, by the table, and with
    which value of [expired]; [None] once a terminal row has been applied. *)
Fixpoint table_state (expired : bool) (sigs : list Signal) : option bool :=
  match sigs with
  | [] => Some expired
  | sig :: rest =>
      let row := table sig expired in
      if terminal row then None else table_state (expired_next row) rest
  end.

(** ** Vocabulary for the statements *)

(** The mutex is free. *)
Definition free (w : World) : Prop := mu (sess w) = false.

(** [after l r]: the run [r], preceded by the effects [l]. *)
Definition after {A} (l : list Action) (r : Run A) : Run A :=
  MkRun (out r) (post r) (l ++ acts r).

(** The effects of one broadcast of [e] to the subscribers [subs]. *)
Definition broadcast (subs : list SubChan) (e : ZKSessionEvent) : list Action :=
  ANotify e :: ALock :: map (fun c => ASend c e) subs ++ [AUnlock].

(** The lines the logger [lg] writes for one call. *)
Definition logged (lg : stdLogger) (format : string) (v : list LogArg)
  : list Action :=
  map ALog (Printf lg format v).

(** What closing the handle that is being replaced does: nothing for a nil
    handle; otherwise the call, and a log line when it fails. *)
Definition close_effects (zk : zookeeper.Client) (old : option zookeeper.Conn)
                         (lg : stdLogger) : list Action :=
  match old with
  | Some c =>
      ACall c ReqClose ::
      match zookeeper.Close zk c with
      | Some e =>
          logged lg "gozk-recipes/session: error in closing existing zookeeper connection: %v"
                 [ArgErr e]
      | None => []
      end
  | None => []
  end.

(** The signal the next pass will take, if there is one. *)
Definition next_signal (w : World) : option zookeeper.Event :=
  hd_error (zookeeper.pending (events (sess w))).

(** The world once the head of the stream has been received: [s.events] is
    the same channel, with one signal fewer waiting on it. *)
Definition received_one (w : World) : World :=
  {| sess := with_events
               {| zookeeper.chan_id := zookeeper.chan_id (events (sess w));
                  zookeeper.pending := tl (zookeeper.pending (events (sess w))) |}
               (sess w);
     dials := dials w |}.

(** The world once [n] signals have been received. *)
Fixpoint received_many (n : nat) (w : World) : World :=
  match n with
  | O => w
  | S n' => received_many n' (received_one w)
  end.

(** The six states the switch has a case for. *)
Definition recognised (state : Z) : Prop :=
  In state [zookeeper.STATE_EXPIRED_SESSION; zookeeper.STATE_AUTH_FAILED;
            zookeeper.STATE_CONNECTING; zookeeper.STATE_ASSOCIATING;
            zookeeper.STATE_CONNECTED; zookeeper.STATE_CLOSED].

(** The arguments a dial is given when they are read from the options. *)
Definition dial_args (o : SessionOpts)
  : string * time.Duration * option zookeeper.ClientId :=
  (strings.Join (servers o) ",", recvTimeout o, clientID o).

(** The dial an expired session is answered with. *)
Definition redial_of (zk : zookeeper.Client) (w : World)
  : zookeeper.RedialResult :=
  zookeeper.Redial zk (dials w)
    (strings.Join (servers (opts (sess w))) ",")
    (recvTimeout (opts (sess w))) (clientID (opts (sess w))).

Definition redial_action (zk : zookeeper.Client) (w : World) : Action :=
  ARedial (strings.Join (servers (opts (sess w))) ",")
          (recvTimeout (opts (sess w))) (clientID (opts (sess w)))
          (redial_of zk w).

(** The world once the signal has been received and a redial has succeeded
    with handle [conn'] and stream [events']. *)
Definition redialed (zk : zookeeper.Client)
    (WithZookeeperClientID : option zookeeper.ClientId -> SessionOpt)
    (conn' : zookeeper.Conn) (events' : zookeeper.EventChan) (w : World)
  : World :=
  {| sess :=
       {| opts := WithZookeeperClientID (zookeeper.ClientId_ zk conn')
                    (opts (sess w));
          conn := Some conn';
          events := events';
          mu := mu (sess w);
          subscriptions := subscriptions (sess w);
          log := log (sess w) |};
     dials := S (dials w) |}.

(** Where the table leaves the loop. *)
Definition loop_of (st : option bool) : Loop :=
  match st with
  | Some expired => Running expired
  | None => Exited
  end.

(** Where a pass leaves the loop. *)
Definition flow_loop (flow : Flow) : Loop :=
  match flow with
  | Continue expired => Running expired
  | Return => Exited
  end.

(** Nothing of the session's business happened. *)
Definition quiet (l : list Action) : Prop :=
  emitted l = [] /\ signals l = [] /\ sends l = [] /\ consumed l = []
  /\ redials l = [].

(** The signals so far end inside an expiry interval: a session expiry that
    was answered by a successful redial, and no [Connected] since. *)
Definition in_expiry_interval (sigs : list Signal) : Prop :=
  exists before since,
    sigs = before ++ SessionExpired true :: since /\ ~ In Connected since.

(** ** A client library that plays a given signal sequence

    For a sequence of signals of the specification, the stream that delivers
    them and the library whose redials end as the sequence says: the redial
    that answers an expiry succeeds or fails as that signal prescribes, and a
    successful one hands over a stream with the signals that follow. *)

Module Script.

Definition state_of (sig : Signal) : Z :=
  match sig with
  | Connecting => zookeeper.STATE_CONNECTING
  | Associating => zookeeper.STATE_ASSOCIATING
  | Connected => zookeeper.STATE_CONNECTED
  | SessionExpired _ => zookeeper.STATE_EXPIRED_SESSION
  | AuthFailed => zookeeper.STATE_AUTH_FAILED
  | Closed => zookeeper.STATE_CLOSED
  end.

Definition event_of (sig : Signal) : zookeeper.Event :=
  {| zookeeper.Type_ := -1; zookeeper.Path := "";
     zookeeper.State := state_of sig |}.

Definition stream_of (id : nat) (sigs : list Signal) : zookeeper.EventChan :=
  {| zookeeper.chan_id := id; zookeeper.pending := map event_of sigs |}.

(** The expiries of a sequence, in order: how the redial ends, and the
    signals after it. *)
Fixpoint expiries (sigs : list Signal) : list (bool * list Signal) :=
  match sigs with
  | [] => []
  | SessionExpired ok :: rest => (ok, rest) :: expiries rest
  | _ :: rest => expiries rest
  end.

Definition client (sigs : list Signal) : zookeeper.Client :=
  {| zookeeper.Redial := fun n _ _ _ =>
       match nth_error (expiries sigs) n with
       | Some (true, rest) => zookeeper.RedialOk (S n) (stream_of (S n) rest)
       | _ => zookeeper.RedialErr "no server answered"
       end;
     zookeeper.Close := fun _ => None;
     zookeeper.ClientId_ := fun _ => None;
     zookeeper.ConnectedServer := fun _ => "";
     zookeeper.CurrentServer := fun _ => ("", None);
     zookeeper.ACL_ := fun _ _ => ([], None, None);
     zookeeper.AddAuth := fun _ _ _ => None;
     zookeeper.Children := fun _ _ => ([], None, None);
     zookeeper.ChildrenW := fun _ _ => ([], None, None, None);
     zookeeper.Create := fun _ path _ _ _ => (path, None);
     zookeeper.Delete := fun _ _ _ => None;
     zookeeper.Exists_ := fun _ _ => (None, None);
     zookeeper.ExistsW := fun _ _ => (None, None, None);
     zookeeper.Get := fun _ _ => ("", None, None);
     zookeeper.GetW := fun _ _ => ("", None, None, None);
     zookeeper.Set_ := fun _ _ _ _ => (None, None);
     zookeeper.RetryChange := fun _ _ _ _ _ => None;
     zookeeper.SetACL := fun _ _ _ _ => None;
     zookeeper.SetServersResolutionDelay := fun _ _ => tt |}.

(** The session [s], put on the stream that delivers [sigs], before any
    redial. *)
Definition world (sigs : list Signal) (s : ZKSession) : World :=
  {| sess := with_events (stream_of 0 sigs) s; dials := 0 |}.

(** The signals of a sequence that the table gets to: those up to the
    first terminal row. *)
Fixpoint taken (sigs : list Signal) : list Signal :=
  match sigs with
  | [] => []
  | sig :: rest =>
      sig :: (if terminal (table sig false) then [] else taken rest)
  end.

End Script.

(** ** A small instance

    A client library and a session to run the definitions on. *)

Module Demo.

Definition session_event (state : Z) : zookeeper.Event :=
  {| zookeeper.Type_ := -1; zookeeper.Path := ""; zookeeper.State := state |}.

Definition token (c : zookeeper.Conn) : zookeeper.ClientId :=
  {| zookeeper.session_id := Z.of_nat c; zookeeper.passwd := "secret" |}.

(** The first redial succeeds with handle 2, whose stream holds the
    [Connected] signal; later ones fail.  Closing handle 1 fails. *)
Definition zk : zookeeper.Client :=
  {| zookeeper.Redial := fun n _ _ _ =>
       match n with
       | O => zookeeper.RedialOk 2%nat
                {| zookeeper.chan_id := 2%nat;
                   zookeeper.pending := [session_event zookeeper.STATE_CONNECTED] |}
       | S _ => zookeeper.RedialErr "no server answered"
       end;
     zookeeper.Close := fun c => if Nat.eqb c 1%nat then Some "already closed" else None;
     zookeeper.ClientId_ := fun c => Some (token c);
     zookeeper.ConnectedServer := fun _ => "10.0.0.1:2181";
     zookeeper.CurrentServer := fun _ => ("10.0.0.1:2181", None);
     zookeeper.ACL_ := fun _ _ => ([], None, Some "no node");
     zookeeper.AddAuth := fun _ _ _ => None;
     zookeeper.Children := fun _ _ => (["a"; "b"], None, None);
     zookeeper.ChildrenW := fun _ _ => (["a"; "b"], None, None, None);
     zookeeper.Create := fun _ path _ _ _ => (path, None);
     zookeeper.Delete := fun _ _ _ => Some "bad version";
     zookeeper.Exists_ := fun _ _ => (None, None);
     zookeeper.ExistsW := fun _ _ => (None, None, None);
     zookeeper.Get := fun _ path => (String.append "value of " path, None, None);
     zookeeper.GetW := fun _ path => (String.append "value of " path, None, None, None);
     zookeeper.Set_ := fun _ _ _ _ => (None, Some "bad version");
     zookeeper.RetryChange := fun _ _ _ _ _ => None;
     zookeeper.SetACL := fun _ _ _ _ => None;
     zookeeper.SetServersResolutionDelay := fun _ _ => tt |}.

(** Modelled from the spec: the body of the option builder
    [WithZookeeperClientID], whose declaration is missing from the sources.
    The spec counts the client identity, its resumption token, among the
    recognised options and says that a successful redial updates the token
    from the new handle: the builder stores the token it is given and leaves
    the other options alone. *)
Definition WithZookeeperClientID (clientId : option zookeeper.ClientId)
  : SessionOpt :=
  fun so => {| servers := servers so; recvTimeout := recvTimeout so;
               logger := logger so; clientID := clientId |}.

(** A logger that writes the format of every call. *)
Definition printer : stdLogger := {| Printf := fun format _ => [format] |}.

(** A session on handle 1 with two subscribers, whose stream will deliver
    the given states. *)
Definition session (states : list Z) : ZKSession :=
  {| opts := {| servers := ["10.0.0.1:2181"; "10.0.0.2:2181"];
                recvTimeout := DefaultRecvTimeout;
                logger := printer;
                clientID := Some (token 1%nat) |};
     conn := Some 1%nat;
     events := {| zookeeper.chan_id := 1%nat; zookeeper.pending := map session_event states |};
     mu := false;
     subscriptions := [10%nat; 11%nat];
     log := printer |}.

Definition world (states : list Z) : World :=
  {| sess := session states; dials := 0%nat |}.

(** The same, while another goroutine holds the mutex. *)
Definition held_world : World :=
  {| sess := with_mu true (session []); dials := 0%nat |}.

End Demo.

(** ** The older constructors

    [NewZKSession] and [ResumeZKSession] build a list of options and go
    through [NewSessionWithOpts].  The option builders and [Create] are
    declared in the file that is not among the sources at hand, and
    [strings.Split] belongs to the Go library: all are parameters. *)

Section Constructors.

Variable SessionOpts_Create : SessionOpts -> World + error.
Variable WithLogger : option stdLogger -> SessionOpt.
Variable WithZookeepers : list string -> SessionOpt.
Variable WithRecvTimeout : time.Duration -> SessionOpt.
Variable WithZookeeperClientID : option zookeeper.ClientId -> SessionOpt.
Variable strings_Split : string -> string -> list string.



End Constructors.

(** ** More ways to read a trace *)

(** The handles [Close] was called on, in order. *)
Definition closes (l : list Action) : list zookeeper.Conn :=
  flat_map (fun a => match a with ACall c ReqClose => [c] | _ => [] end) l.

(** The handles that successful dials returned, in order. *)
Definition installed (l : list Action) : list zookeeper.Conn :=
  flat_map (fun a => match a with
                     | ARedial _ _ _ (zookeeper.RedialOk c _) => [c]
                     | _ => []
                     end) l.

(** The lines logged, in order. *)
Definition logs (l : list Action) : list string :=
  flat_map (fun a => match a with ALog s => [s] | _ => [] end) l.

(** The expiry signals among those taken from the stream. *)
Definition expiries_taken (l : list Action) : list zookeeper.Event :=
  filter (fun ev => zookeeper.State ev =? zookeeper.STATE_EXPIRED_SESSION)
         (consumed l).

(** The channels a schedule passes to [Subscribe], in order. *)
Definition subscribed (ops : list Op) : list SubChan :=
  flat_map (fun op => match op with CallSubscribe c => [c] | Tick => [] end) ops.

(** A handle as the list of the handles it is: none for nil. *)
Definition handle (c : option zookeeper.Conn) : list zookeeper.Conn :=
  match c with
  | Some c => [c]
  | None => []
  end.

(** Walking a trace with the state of the mutex: [None] as soon as the
    mutex is locked while held, unlocked while free, or a send or a field
    assignment happens while it is free; otherwise the state at the end. *)
Fixpoint guarded (held : bool) (l : list Action) : option bool :=
  match l with
  | [] => Some held
  | ALock :: l' => if held then None else guarded true l'
  | AUnlock :: l' => if held then guarded false l' else None
  | ASend _ _ :: l' => if held then guarded held l' else None
  | AWrite _ :: l' => if held then guarded held l' else None
  | _ :: l' => guarded held l'
  end.

(** The [SessionExpiredReconnected] events among those emitted. *)
Definition purge_notices (l : list Action) : list ZKSessionEvent :=
  filter (fun e => match e with SessionExpiredReconnected => true | _ => false end)
         (emitted l).

(** The expiries among signals that a successful redial answered. *)
Definition answered_expiries (sigs : list Signal) : list Signal :=
  filter (fun sig => match sig with SessionExpired true => true | _ => false end)
         sigs.

(** ** Sample sessions and schedules

    Instances of the demonstration session on which the properties over
    schedules are exercised. *)

Module Sample.

(** A disconnect, an expiry, and what the old stream would still deliver. *)
Definition states : list Z :=
  [zookeeper.STATE_CONNECTING; zookeeper.STATE_EXPIRED_SESSION;
   zookeeper.STATE_CONNECTED; zookeeper.STATE_CLOSED].

(** A disconnect that heals, then a close: no expiry. *)
Definition plain : list Z :=
  [zookeeper.STATE_CONNECTING; zookeeper.STATE_CONNECTED;
   zookeeper.STATE_CLOSED].

(** The demonstration session with its loop about to make the first pass. *)
Definition system (states : list Z) : System :=
  {| loop := Running false; world := Demo.world states |}.

(** Four passes of the loop, with a caller subscribing channel 12 after
    the first. *)
Definition schedule : list Op :=
  [Tick; CallSubscribe 12%nat; Tick; Tick; Tick].

Definition result (ops : list Op) (states : list Z) : System * list Action :=
  run Demo.zk Demo.WithZookeeperClientID ops (system states).

(** The demonstration session with the no-op logger. *)
Definition silent (states : list Z) : System :=
  {| loop := Running false;
     world := {| sess := {| opts := opts (Demo.session states);
                            conn := conn (Demo.session states);
                            events := events (Demo.session states);
                            mu := false;
                            subscriptions := subscriptions (Demo.session states);
                            log := nullLogger |};
                 dials := 0%nat |} |}.

(** The demonstration session after one dial has been made: the next dial
    of the demonstration client fails. *)
Definition redialed_once : World :=
  {| sess := Demo.session [zookeeper.STATE_EXPIRED_SESSION]; dials := 1%nat |}.



Definition create (_ : SessionOpts) : World + error := inl (Demo.world []).

End Sample.

(** * Properties *)

(** ** Running computations *)

Lemma bind_done {A B} (m : M A) (k : A -> M B) (w w1 : World) (a : A)
      (l : list Action) :
  m w = MkRun (Done a) w1 l ->
  (x <- m ;; k x) w = after l (k a w1).
Proof. intros H. unfold bind, after. rewrite H. reflexivity. Qed.

Lemma bind_parked {A B} (m : M A) (k : A -> M B) (w w1 : World)
      (l : list Action) :
  m w = MkRun Parked w1 l ->
  (x <- m ;; k x) w = MkRun Parked w1 l.
Proof. intros H. unfold bind. rewrite H. reflexivity. Qed.

Lemma after_run {A} (l l' : list Action) (o : Outcome A) (w : World) :
  after l (MkRun o w l') = MkRun o w (l ++ l').
Proof. reflexivity. Qed.

Lemma run_eta {A} (r : Run A) : r = MkRun (out r) (post r) (acts r).
Proof. destruct r; reflexivity. Qed.

Lemma for_range_send (subs : list SubChan) (e : ZKSessionEvent) (w : World) :
  for_range subs (fun c => emit (ASend c e)) w
  = MkRun (Done tt) w (map (fun c => ASend c e) subs).
Proof.
  induction subs as [|c subs IH]; [reflexivity|].
  cbn [for_range map].
  erewrite bind_done by reflexivity. rewrite IH. reflexivity.
Qed.

Lemma notifySubscribers_free (e : ZKSessionEvent) (w : World) :
  free w ->
  notifySubscribers e w
  = MkRun (Done tt) w (broadcast (subscriptions (sess w)) e).
Proof.
  destruct w as [[o c ch m subs lg] d]. unfold free. cbn. intros ->.
  unfold notifySubscribers.
  repeat (erewrite bind_done by
            first [ apply for_range_send | cbn; reflexivity ]).
  reflexivity.
Qed.

Lemma Subscribe_free (c : SubChan) (w : World) :
  free w ->
  Subscribe c w
  = MkRun (Done tt)
      {| sess := with_subscriptions (subscriptions (sess w) ++ [c]) (sess w);
         dials := dials w |}
      [ALock; AWrite f_subscriptions; AUnlock].
Proof.
  destruct w as [[o cn ch m subs lg] d]. unfold free. cbn. intros ->.
  reflexivity.
Qed.

(** ** Reading traces piecewise *)

Lemma emitted_app (l1 l2 : list Action) :
  emitted (l1 ++ l2) = emitted l1 ++ emitted l2.
Proof. apply flat_map_app. Qed.

Lemma signals_app (l1 l2 : list Action) :
  signals (l1 ++ l2) = signals l1 ++ signals l2.
Proof. apply flat_map_app. Qed.

Lemma sends_app (l1 l2 : list Action) :
  sends (l1 ++ l2) = sends l1 ++ sends l2.
Proof. apply flat_map_app. Qed.

Lemma consumed_app (l1 l2 : list Action) :
  consumed (l1 ++ l2) = consumed l1 ++ consumed l2.
Proof. apply flat_map_app. Qed.

Lemma redials_app (l1 l2 : list Action) :
  redials (l1 ++ l2) = redials l1 ++ redials l2.
Proof. apply flat_map_app. Qed.

Lemma received_app (c : SubChan) (l1 l2 : list Action) :
  received c (l1 ++ l2) = received c l1 ++ received c l2.
Proof. apply flat_map_app. Qed.

Lemma writes_app (l1 l2 : list Action) :
  writes (l1 ++ l2) = writes l1 ++ writes l2.
Proof. apply flat_map_app. Qed.

Lemma pick_log {A} (f : Action -> list A) (lines : list string) :
  (forall s, f (ALog s) = []) -> flat_map f (map ALog lines) = [].
Proof.
  intros H. induction lines as [|x lines IH]; cbn; [reflexivity|].
  rewrite H, IH. reflexivity.
Qed.

Lemma pick_send {A} (f : Action -> list A) (subs : list SubChan) e :
  (forall c, f (ASend c e) = []) ->
  flat_map f (map (fun c => ASend c e) subs) = [].
Proof.
  intros H. induction subs as [|x subs IH]; cbn; [reflexivity|].
  rewrite H, IH. reflexivity.
Qed.

Lemma pick_close {A} (f : Action -> list A) zk old lg :
  (forall s, f (ALog s) = []) -> (forall c r, f (ACall c r) = []) ->
  flat_map f (close_effects zk old lg) = [].
Proof.
  intros Hl Hc. unfold close_effects, logged.
  destruct old as [c|]; [|reflexivity].
  cbn [flat_map]. rewrite Hc.
  destruct (zookeeper.Close zk c); [|reflexivity].
  rewrite pick_log by assumption. reflexivity.
Qed.

Lemma sends_fanout (subs : list SubChan) e :
  sends (map (fun c => ASend c e) subs) = map (fun c => (c, e)) subs.
Proof.
  induction subs as [|x subs IH]; [reflexivity|].
  cbn [map]. change (sends (ASend x e :: ?l)) with ((x, e) :: sends l).
  rewrite IH. reflexivity.
Qed.

Lemma received_fanout (sub : SubChan) (subs : list SubChan) e :
  received sub (map (fun c => ASend c e) subs)
  = repeat e (count_occ Nat.eq_dec subs sub).
Proof.
  induction subs as [|x subs IH]; [reflexivity|].
  cbn [map count_occ].
  change (received sub (ASend x e :: ?l))
    with ((if Nat.eqb x sub then [e] else []) ++ received sub l).
  rewrite IH.
  destruct (Nat.eq_dec x sub) as [->|Hne].
  - rewrite Nat.eqb_refl. reflexivity.
  - apply Nat.eqb_neq in Hne. rewrite Hne. reflexivity.
Qed.

Ltac pick :=
  unfold emitted, signals, sends, consumed, redials, writes, broadcast, logged,
         redial_action;
  repeat first
    [ rewrite flat_map_app
    | rewrite pick_log by reflexivity
    | rewrite pick_send by reflexivity
    | rewrite pick_close by reflexivity
    | progress cbn [flat_map app signal_of_action] ].

(** ** The table over concatenated signal sequences *)

Lemma table_events_app (sigs1 sigs2 : list Signal) (expired : bool) :
  table_events expired (sigs1 ++ sigs2)
  = table_events expired sigs1
    ++ match table_state expired sigs1 with
       | Some expired' => table_events expired' sigs2
       | None => []
       end.
Proof.
  revert expired. induction sigs1 as [|sig sigs1 IH]; intros expired.
  - reflexivity.
  - cbn [app table_events table_state]. cbv zeta.
    destruct (terminal (table sig expired)).
    + rewrite !app_nil_r. reflexivity.
    + rewrite IH, app_assoc. reflexivity.
Qed.

Lemma table_state_app (sigs1 sigs2 : list Signal) (expired : bool) :
  table_state expired (sigs1 ++ sigs2)
  = match table_state expired sigs1 with
    | Some expired' => table_state expired' sigs2
    | None => None
    end.
Proof.
  revert expired. induction sigs1 as [|sig sigs1 IH]; intros expired.
  - reflexivity.
  - cbn [app table_state]. cbv zeta.
    destruct (terminal (table sig expired)); [reflexivity|apply IH].
Qed.

(** A terminal event of the table's trace ends it, and is its only one. *)
Lemma table_terminal_last (sigs : list Signal) (expired : bool)
      (e : ZKSessionEvent) :
  In e (table_events expired sigs) -> is_terminal e = true ->
  table_state expired sigs = None
  /\ exists earlier, table_events expired sigs = earlier ++ [e]
                     /\ Forall (fun x => is_terminal x = false) earlier.
Proof.
  revert expired. induction sigs as [|sig sigs IH]; intros expired Hin Hterm.
  - destruct Hin.
  - destruct sig as [| | |[|]| |]; try destruct expired;
      cbn [table_events table_state table emits terminal expired_next app] in *;
      try (destruct Hin as [<-|Hin]; [discriminate Hterm|]);
      try (destruct Hin as [<-|[]]; split; [reflexivity|];
           exists []; split; [reflexivity|constructor]);
      try (destruct (IH _ Hin Hterm) as (Hst & earlier & Heq & Hall);
           split; [exact Hst|]; rewrite Heq;
           first [ eexists (_ :: earlier); split;
                   [reflexivity|constructor; [reflexivity|exact Hall]]
                 | exists earlier; split; [reflexivity|exact Hall] ]).
Qed.

(** The flag the table leaves, read off the signal sequence. *)
Lemma table_state_interval (sigs : list Signal) (expired b : bool) :
  table_state expired sigs = Some b ->
  (b = true <->
   (expired = true /\ ~ In Connected sigs) \/ in_expiry_interval sigs).
Proof.
  unfold in_expiry_interval.
  revert expired. induction sigs as [|sig sigs IH]; intros expired Hst.
  - cbn in Hst. injection Hst as <-. split.
    + intros ->. left. split; [reflexivity|intros []].
    + intros [[H _]|(before & since & H & _)]; [exact H|].
      destruct before; discriminate H.
  - assert (Hshift : forall x : Signal, x <> SessionExpired true ->
              ((exists before since,
                   x :: sigs = before ++ SessionExpired true :: since
                   /\ ~ In Connected since)
               <-> (exists before since,
                       sigs = before ++ SessionExpired true :: since
                       /\ ~ In Connected since))).
    { intros x Hx. split.
      - intros (before & since & Heq & Hno).
        destruct before as [|y before]; cbn in Heq.
        + injection Heq as -> _. contradiction Hx; reflexivity.
        + injection Heq as _ ->. exists before, since. split; [reflexivity|exact Hno].
      - intros (before & since & -> & Hno).
        exists (x :: before), since. split; [reflexivity|exact Hno]. }
    destruct sig as [| | |[|]| |];
      cbn [table_state table terminal expired_next] in Hst;
      try (destruct expired; cbn [table_state table terminal expired_next] in Hst);
      try discriminate Hst.
    all: specialize (IH _ Hst); rewrite IH; clear IH.
    all: try (rewrite Hshift by discriminate; cbn [In];
              intuition (try discriminate; try congruence); fail).
    (* an expiry answered by a successful redial *)
    all: split;
      [ intros [[_ Hno]|(before & since & -> & Hno)];
        [ right; exists [], sigs; split; [reflexivity|exact Hno]
        | right; exists (SessionExpired true :: before), since;
          split; [reflexivity|exact Hno] ]
      | intros [[_ Hno]|(before & since & Heq & Hno)];
        [ left; split; [reflexivity|]; intros Hin; apply Hno; right; exact Hin
        | destruct before as [|y before]; cbn in Heq;
          [ injection Heq as ->; left; split; [reflexivity|exact Hno]
          | injection Heq as _ ->; right; exists before, since;
            split; [reflexivity|exact Hno] ] ] ].
Qed.

(** ** One pass of the loop, case by case *)

Section Steps.

Context (zk : zookeeper.Client).
Context (withID : option zookeeper.ClientId -> SessionOpt).

Ltac fields :=
  cbn [sess dials opts conn events mu subscriptions log
       with_opts with_conn with_events with_mu with_subscriptions].

Ltac solve_run :=
  lazymatch goal with
  | |- notifySubscribers _ _ = _ => apply notifySubscribers_free; reflexivity
  | |- _ => cbn; reflexivity
  end.

Ltac run_bind := fields; cbv beta iota; erewrite bind_done by solve_run.

Ltac finish :=
  fields; cbv beta iota; unfold ret, panic; repeat rewrite after_run;
  unfold logged, close_effects; cbn [app];
  rewrite ?app_nil_r; rewrite <- ?app_assoc; cbn [app];
  reflexivity.

Ltac decide_tests :=
  repeat match goal with
         | |- context [Z.eqb ?a ?b] =>
             let v := eval vm_compute in (Z.eqb a b) in
             match v with
             | true => change (Z.eqb a b) with true
             | false => change (Z.eqb a b) with false
             end
         end;
  cbv iota.

(** Take the world apart and receive the signal at the head of the stream. *)
Ltac open_stream w Hs :=
  let o := fresh "o" in let c := fresh "c" in
  let i := fresh "i" in let q := fresh "q" in
  let m := fresh "m" in let subs := fresh "subs" in let lg := fresh "lg" in
  let d := fresh "d" in
  let Hq := fresh "Hq" in
  destruct w as [[o c [i q] m subs lg] d];
  unfold free, next_signal, received_one;
  cbn [sess mu events zookeeper.pending zookeeper.chan_id hd_error tl
       dials subscriptions log opts conn];
  intros Hq Hs; destruct q; [discriminate Hq|];
  injection Hq as ->;
  unfold manage_iter; run_bind; cbv beta zeta.

(** The same, for a world whose mutex is free. *)
Ltac open_world w Hs :=
  let o := fresh "o" in let c := fresh "c" in
  let i := fresh "i" in let q := fresh "q" in
  let m := fresh "m" in let subs := fresh "subs" in let lg := fresh "lg" in
  let d := fresh "d" in
  let Hq := fresh "Hq" in
  destruct w as [[o c [i q] m subs lg] d];
  unfold free, next_signal, received_one;
  cbn [sess mu events zookeeper.pending zookeeper.chan_id hd_error tl
       dials subscriptions log opts conn];
  intros -> Hq Hs; destruct q; [discriminate Hq|];
  injection Hq as ->;
  unfold manage_iter; run_bind; cbv beta zeta.

Lemma iter_waiting (expired : bool) (w : World) :
  next_signal w = None ->
  manage_iter zk withID expired w = MkRun Parked w [].
Proof.
  destruct w as [[o c [i q] m subs lg] d]. unfold next_signal. cbn.
  destruct q; [reflexivity|discriminate].
Qed.

Lemma iter_connecting (expired : bool) (w : World) ev :
  free w -> next_signal w = Some ev ->
  zookeeper.State ev = zookeeper.STATE_CONNECTING ->
  manage_iter zk withID expired w
  = MkRun (Done (Continue expired)) (received_one w)
      (ARecv ev :: broadcast (subscriptions (sess w)) SessionDisconnected
       ++ logged (log (sess w))
            "gozk-recipes/session.SessionDisconnected: attempting to reconnect" []).
Proof.
  open_world w Hs. rewrite Hs. decide_tests. repeat run_bind. finish.
Qed.

Lemma iter_associating (expired : bool) (w : World) ev :
  next_signal w = Some ev ->
  zookeeper.State ev = zookeeper.STATE_ASSOCIATING ->
  manage_iter zk withID expired w
  = MkRun (Done (Continue expired)) (received_one w) [ARecv ev].
Proof.
  open_stream w Hs. rewrite Hs. decide_tests. reflexivity.
Qed.

Lemma iter_connected (expired : bool) (w : World) ev :
  free w -> next_signal w = Some ev ->
  zookeeper.State ev = zookeeper.STATE_CONNECTED ->
  manage_iter zk withID expired w
  = MkRun (Done (Continue false)) (received_one w)
      (ARecv ev ::
       if expired
       then broadcast (subscriptions (sess w)) SessionExpiredReconnected
            ++ logged (log (sess w))
                 "gozk-recipes/session.SessionExpiredReconnected: all ephemeral nodes purged" []
       else broadcast (subscriptions (sess w)) SessionReconnected
            ++ logged (log (sess w))
                 "gozk-recipes/session.SessionReconnected: reconnected before timed out" []).
Proof.
  open_world w Hs. rewrite Hs. decide_tests.
  destruct expired; repeat run_bind; finish.
Qed.

Lemma iter_auth_failed (expired : bool) (w : World) ev :
  free w -> next_signal w = Some ev ->
  zookeeper.State ev = zookeeper.STATE_AUTH_FAILED ->
  manage_iter zk withID expired w
  = MkRun (Done Return) (received_one w)
      (ARecv ev :: broadcast (subscriptions (sess w)) SessionFailed
       ++ logged (log (sess w))
            "gozk-recipes/session.SessionFailed: zookeeper.STATE_AUTH_FAILURE, session terminated" []).
Proof.
  open_world w Hs. rewrite Hs. decide_tests. repeat run_bind. finish.
Qed.

Lemma iter_closed (expired : bool) (w : World) ev :
  free w -> next_signal w = Some ev ->
  zookeeper.State ev = zookeeper.STATE_CLOSED ->
  manage_iter zk withID expired w
  = MkRun (Done Return) (received_one w)
      (ARecv ev :: broadcast (subscriptions (sess w)) SessionClosed
       ++ logged (log (sess w))
            "gozk-recipes/session.SessionClosed: normally caused by call to Close(), session terminated" []).
Proof.
  open_world w Hs. rewrite Hs. decide_tests. repeat run_bind. finish.
Qed.

Lemma iter_other (expired : bool) (w : World) ev :
  next_signal w = Some ev ->
  ~ recognised (zookeeper.State ev) ->
  manage_iter zk withID expired w
  = MkRun (Done (Continue expired)) (received_one w) [ARecv ev].
Proof.
  open_stream w Hs.
  unfold recognised in Hs. cbn [In] in Hs.
  repeat match goal with
         | |- context [Z.eqb ?a ?b] =>
             replace (Z.eqb a b) with false
               by (symmetry; apply Z.eqb_neq; intros E; apply Hs; rewrite E; tauto)
         end.
  reflexivity.
Qed.

Lemma iter_expired_failed (expired : bool) (w : World) ev err :
  free w -> next_signal w = Some ev ->
  zookeeper.State ev = zookeeper.STATE_EXPIRED_SESSION ->
  redial_of zk w = zookeeper.RedialErr err ->
  manage_iter zk withID expired w
  = MkRun (Done Return)
      {| sess := sess (received_one w); dials := S (dials w) |}
      (ARecv ev
       :: logged (log (sess w))
            "gozk-recipes/session: got STATE_EXPIRED_SESSION for conn %+v"
            [ArgConn (conn (sess w))]
       ++ redial_action zk w
       :: broadcast (subscriptions (sess w)) SessionFailed
       ++ logged (log (sess w))
            "gozk-recipes/session.SessionFailed: %s, session terminated"
            [ArgStr err]).
Proof.
  unfold redial_action, redial_of.
  open_world w Hs. intros Hr. rewrite Hs. decide_tests.
  do 4 run_bind. fields. rewrite Hr.
  repeat run_bind. finish.
Qed.

Lemma iter_expired_redialed (expired : bool) (w : World) ev conn' events' :
  free w -> next_signal w = Some ev ->
  zookeeper.State ev = zookeeper.STATE_EXPIRED_SESSION ->
  redial_of zk w = zookeeper.RedialOk conn' events' ->
  manage_iter zk withID expired w
  = MkRun (Done (Continue true)) (redialed zk withID conn' events' w)
      (ARecv ev
       :: logged (log (sess w))
            "gozk-recipes/session: got STATE_EXPIRED_SESSION for conn %+v"
            [ArgConn (conn (sess w))]
       ++ redial_action zk w
       :: logged (log (sess w))
            "gozk-recipes/session: STATE_EXPIRED_SESSION redialed conn %+v"
            [ArgConn (Some conn')]
       ++ ALock
       :: close_effects zk (conn (sess w)) (log (sess w))
       ++ [AWrite f_conn; AWrite f_events; ACall conn' ReqClientId;
           AWrite f_opts; AUnlock; ACall conn' ReqConnectedServer]
       ++ logged (log (sess w))
            "gozk-recipes/session: session re-established with %s"
            [ArgStr (zookeeper.ConnectedServer zk conn')]).
Proof.
  unfold redial_action, redial_of, redialed, close_effects.
  open_world w Hs. intros Hr. rewrite Hs. decide_tests.
  do 4 run_bind. fields. rewrite Hr.
  destruct c as [c|]; [destruct (zookeeper.Close zk c) eqn:Hc|].
  - do 3 run_bind. fields. cbv beta iota. rewrite Hc. repeat run_bind. finish.
  - do 3 run_bind. fields. cbv beta iota. rewrite Hc. repeat run_bind. finish.
  - repeat run_bind. finish.
Qed.

Lemma state_cases (state : Z) :
  state = zookeeper.STATE_EXPIRED_SESSION \/
  state = zookeeper.STATE_AUTH_FAILED \/
  state = zookeeper.STATE_CONNECTING \/
  state = zookeeper.STATE_ASSOCIATING \/
  state = zookeeper.STATE_CONNECTED \/
  state = zookeeper.STATE_CLOSED \/
  ~ recognised state.
Proof.
  unfold recognised. cbn [In].
  destruct (Z.eq_dec state zookeeper.STATE_EXPIRED_SESSION); [tauto|].
  destruct (Z.eq_dec state zookeeper.STATE_AUTH_FAILED); [tauto|].
  destruct (Z.eq_dec state zookeeper.STATE_CONNECTING); [tauto|].
  destruct (Z.eq_dec state zookeeper.STATE_ASSOCIATING); [tauto|].
  destruct (Z.eq_dec state zookeeper.STATE_CONNECTED); [tauto|].
  destruct (Z.eq_dec state zookeeper.STATE_CLOSED); [tauto|].
  do 6 right. intuition congruence.
Qed.

Lemma unrecognised_no_signal (state : Z) :
  ~ recognised state -> signal_of_state state = None.
Proof.
  unfold recognised, signal_of_state. cbn [In]. intros H.
  repeat match goal with
         | |- context [Z.eqb ?a ?b] =>
             replace (Z.eqb a b) with false
               by (symmetry; apply Z.eqb_neq; intros E; apply H; rewrite E; tauto)
         end.
  reflexivity.
Qed.

(** What every pass that takes a signal does, against the table. *)
Lemma iter_summary (expired : bool) (w : World) (ev : zookeeper.Event) :
  free w -> next_signal w = Some ev ->
  exists flow,
    out (manage_iter zk withID expired w) = Done flow
    /\ free (post (manage_iter zk withID expired w))
    /\ emitted (acts (manage_iter zk withID expired w))
       = table_events expired (signals (acts (manage_iter zk withID expired w)))
    /\ flow_loop flow
       = loop_of (table_state expired
                    (signals (acts (manage_iter zk withID expired w))))
    /\ ((redials (acts (manage_iter zk withID expired w)) = []
         /\ opts (sess (post (manage_iter zk withID expired w))) = opts (sess w))
        \/ redials (acts (manage_iter zk withID expired w))
           = [(dial_args (opts (sess w)), redial_of zk w)]).
Proof.
  intros Hfree Hn.
  destruct (state_cases (zookeeper.State ev))
    as [Hs|[Hs|[Hs|[Hs|[Hs|[Hs|Hs]]]]]].
  - destruct (redial_of zk w) as [conn' events'|err] eqn:Hr.
    + erewrite iter_expired_redialed by eassumption. cbn [out post acts].
      eexists. split; [reflexivity|]. split; [exact Hfree|].
      pick. rewrite Hs, Hr. cbn. auto.
    + erewrite iter_expired_failed by eassumption. cbn [out post acts].
      eexists. split; [reflexivity|]. split; [exact Hfree|].
      pick. rewrite Hs, Hr. cbn. auto.
  - erewrite iter_auth_failed by eassumption. cbn [out post acts].
    eexists. split; [reflexivity|]. split; [exact Hfree|].
    pick. rewrite Hs. cbn. auto.
  - erewrite iter_connecting by eassumption. cbn [out post acts].
    eexists. split; [reflexivity|]. split; [exact Hfree|].
    pick. rewrite Hs. cbn. auto.
  - erewrite iter_associating by eassumption. cbn [out post acts].
    eexists. split; [reflexivity|]. split; [exact Hfree|].
    pick. rewrite Hs. cbn. auto.
  - erewrite iter_connected by eassumption. cbn [out post acts].
    eexists. split; [reflexivity|]. split; [exact Hfree|].
    destruct expired; pick; rewrite Hs; cbn; auto.
  - erewrite iter_closed by eassumption. cbn [out post acts].
    eexists. split; [reflexivity|]. split; [exact Hfree|].
    pick. rewrite Hs. cbn. auto.
  - erewrite iter_other by eassumption. cbn [out post acts].
    eexists. split; [reflexivity|]. split; [exact Hfree|].
    pick. rewrite (@unrecognised_no_signal _ Hs). cbn. auto.
Qed.

End Steps.

(** ** The loop over a schedule *)

Lemma loop_of_running (st : option bool) (expired : bool) :
  Running expired = loop_of st -> st = Some expired.
Proof. destruct st; cbn; congruence. Qed.

Lemma loop_of_exited (st : option bool) : Exited = loop_of st -> st = None.
Proof. destruct st; cbn; congruence. Qed.

Lemma quiet_nil : quiet [].
Proof. repeat split. Qed.

Lemma quiet_app (l1 l2 : list Action) : quiet l1 -> quiet l2 -> quiet (l1 ++ l2).
Proof.
  unfold quiet.
  rewrite emitted_app, signals_app, sends_app, consumed_app, redials_app.
  intros (-> & -> & -> & -> & ->) (-> & -> & -> & -> & ->).
  repeat split.
Qed.

Lemma Subscribe_quiet (c : SubChan) (w : World) : quiet (acts (Subscribe c w)).
Proof.
  destruct w as [[o cn ch [|] subs lg] d]; cbn; repeat split.
Qed.

Section Loop.

Context (zk : zookeeper.Client).
Context (withID : option zookeeper.ClientId -> SessionOpt).

Lemma tick_summary (sys : System) (expired : bool) :
  free (world sys) -> loop sys = Running expired ->
  free (world (fst (tick zk withID sys)))
  /\ emitted (snd (tick zk withID sys))
     = table_events expired (signals (snd (tick zk withID sys)))
  /\ loop (fst (tick zk withID sys))
     = loop_of (table_state expired (signals (snd (tick zk withID sys))))
  /\ ((redials (snd (tick zk withID sys)) = []
       /\ opts (sess (world (fst (tick zk withID sys))))
          = opts (sess (world sys)))
      \/ redials (snd (tick zk withID sys))
         = [(dial_args (opts (sess (world sys))), redial_of zk (world sys))]).
Proof.
  intros Hfree Hloop. unfold tick. rewrite Hloop.
  destruct (zookeeper.pending (events (sess (world sys)))) as [|ev q] eqn:Hq.
  { cbn. rewrite Hloop. auto 10. }
  assert (Hn : next_signal (world sys) = Some ev)
    by (unfold next_signal; rewrite Hq; reflexivity).
  destruct (@iter_summary zk withID expired (world sys) ev Hfree Hn)
    as (flow & Hout & Hfree' & Hem & Hfl & Hrd).
  rewrite Hout. destruct flow as [expired'|]; cbn [fst snd world loop];
    cbn [flow_loop] in Hfl; auto 10.
Qed.

Lemma step_summary (op : Op) (sys : System) :
  free (world sys) ->
  free (world (fst (step zk withID op sys)))
  /\ ((redials (snd (step zk withID op sys)) = []
       /\ opts (sess (world (fst (step zk withID op sys))))
          = opts (sess (world sys)))
      \/ redials (snd (step zk withID op sys))
         = [(dial_args (opts (sess (world sys))), redial_of zk (world sys))]).
Proof.
  intros Hfree. destruct op as [|c].
  - cbn [step]. destruct (loop sys) as [e| |] eqn:Hl.
    + destruct (@tick_summary sys e Hfree Hl) as (H1 & _ & _ & H2). auto 10.
    + unfold tick. rewrite Hl. cbn. auto 10.
    + unfold tick. rewrite Hl. cbn. auto 10.
  - cbn [step fst snd world]. rewrite (@Subscribe_free c (world sys) Hfree).
    cbn. auto 10.
Qed.

Lemma run_cons (op : Op) (ops : list Op) (sys : System) :
  run zk withID (op :: ops) sys
  = (fst (run zk withID ops (fst (step zk withID op sys))),
     snd (step zk withID op sys)
     ++ snd (run zk withID ops (fst (step zk withID op sys)))).
Proof.
  cbn [run]. destruct (step zk withID op sys) as [sys1 l1]. cbn [fst snd].
  destruct (run zk withID ops sys1) as [sys2 l2]. reflexivity.
Qed.

Lemma run_app (ops1 ops2 : list Op) (sys : System) :
  run zk withID (ops1 ++ ops2) sys
  = (fst (run zk withID ops2 (fst (run zk withID ops1 sys))),
     snd (run zk withID ops1 sys)
     ++ snd (run zk withID ops2 (fst (run zk withID ops1 sys)))).
Proof.
  revert sys. induction ops1 as [|op ops1 IH]; intros sys.
  - cbn [app run fst snd]. destruct (run zk withID ops2 sys). reflexivity.
  - cbn [app]. rewrite !run_cons, IH. cbn [fst snd].
    rewrite app_assoc. reflexivity.
Qed.

Lemma run_free (ops : list Op) (sys : System) :
  free (world sys) -> free (world (fst (run zk withID ops sys))).
Proof.
  revert sys. induction ops as [|op ops IH]; intros sys Hfree.
  - exact Hfree.
  - rewrite run_cons. cbn [fst]. apply IH, step_summary, Hfree.
Qed.

(** Once [manage] has returned, whatever the callers do is quiet. *)
Lemma run_exited (ops : list Op) (sys : System) :
  loop sys = Exited ->
  loop (fst (run zk withID ops sys)) = Exited
  /\ quiet (snd (run zk withID ops sys)).
Proof.
  revert sys. induction ops as [|op ops IH]; intros sys Hloop.
  - cbn. split; [assumption|apply quiet_nil].
  - rewrite run_cons. cbn [fst snd].
    destruct op as [|c].
    + cbn [step]. unfold tick. rewrite Hloop. cbn [fst snd app].
      apply IH, Hloop.
    + cbn [step fst snd].
      destruct (IH {| loop := loop sys;
                      world := post (Subscribe c (world sys)) |} Hloop)
        as [H1 H2].
      split; [exact H1|]. apply quiet_app; [apply Subscribe_quiet|exact H2].
Qed.

(** The loop and the table, over any schedule. *)
Lemma run_table (ops : list Op) (sys : System) (expired : bool) :
  free (world sys) -> loop sys = Running expired ->
  emitted (snd (run zk withID ops sys))
  = table_events expired (signals (snd (run zk withID ops sys)))
  /\ loop (fst (run zk withID ops sys))
     = loop_of (table_state expired (signals (snd (run zk withID ops sys)))).
Proof.
  revert sys expired.
  induction ops as [|op ops IH]; intros sys expired Hfree Hloop.
  - cbn. auto 10.
  - rewrite run_cons. cbn [fst snd].
    rewrite emitted_app, signals_app, table_events_app, table_state_app.
    destruct op as [|c].
    + cbn [step].
      destruct (@tick_summary sys expired Hfree Hloop) as (Hf1 & He1 & Hl1 & _).
      rewrite He1.
      destruct (table_state expired (signals (snd (tick zk withID sys))))
        as [expired'|].
      * destruct (IH _ expired' Hf1 Hl1) as (He2 & Hl2).
        rewrite He2. auto 10.
      * destruct (@run_exited ops _ Hl1) as (Hx & Hq & _).
        rewrite Hq, Hx. auto 10.
    + cbn [step fst snd]. rewrite (@Subscribe_free c (world sys) Hfree).
      cbn [post acts].
      change (emitted [ALock; AWrite f_subscriptions; AUnlock]) with (@nil ZKSessionEvent).
      change (signals [ALock; AWrite f_subscriptions; AUnlock]) with (@nil Signal).
      cbn [table_events table_state app].
      apply IH; [exact Hfree|exact Hloop].
Qed.

(** The first dial of a run takes its arguments from the options the run
    starts with. *)
Lemma run_first_redial (ops : list Op) (sys : System) x later :
  free (world sys) ->
  redials (snd (run zk withID ops sys)) = x :: later ->
  fst x = dial_args (opts (sess (world sys))).
Proof.
  revert sys. induction ops as [|op ops IH]; intros sys Hfree.
  - cbn. discriminate.
  - rewrite run_cons. cbn [fst snd]. rewrite redials_app.
    destruct (@step_summary op sys Hfree) as (Hf1 & [[Hnone Hopts]|Hone]).
    + rewrite Hnone. cbn [app]. intros H.
      rewrite <- Hopts. apply (IH _ Hf1 H).
    + rewrite Hone. cbn [app]. intros [= <- _]. reflexivity.
Qed.

(** [manage] itself, pass after pass. *)
Lemma manage_loop_table (n : nat) (expired : bool) (w : World) :
  free w ->
  emitted (acts (manage_loop zk withID n expired w))
  = table_events expired (signals (acts (manage_loop zk withID n expired w))).
Proof.
  revert expired w. induction n as [|n IH]; intros expired w Hfree.
  - reflexivity.
  - cbn [manage_loop].
    destruct (next_signal w) as [ev|] eqn:Hn.
    + destruct (@iter_summary zk withID expired w ev Hfree Hn)
        as (flow & Hout & Hfree' & Hem & Hfl & _).
      erewrite bind_done
        by (rewrite (run_eta (manage_iter zk withID expired w)), Hout;
            reflexivity).
      unfold after. cbn [acts].
      rewrite emitted_app, signals_app, table_events_app, Hem.
      destruct flow as [expired'|]; cbn [flow_loop] in Hfl.
      * rewrite (@loop_of_running _ _ Hfl). rewrite IH by exact Hfree'.
        reflexivity.
      * rewrite (@loop_of_exited _ Hfl). reflexivity.
    + erewrite bind_parked by (apply iter_waiting; exact Hn). reflexivity.
Qed.

End Loop.

(** ** Signals that change nothing *)

Lemma received_many_fields (n : nat) (w : World) :
  opts (sess (received_many n w)) = opts (sess w)
  /\ conn (sess (received_many n w)) = conn (sess w)
  /\ zookeeper.chan_id (events (sess (received_many n w)))
     = zookeeper.chan_id (events (sess w))
  /\ zookeeper.pending (events (sess (received_many n w)))
     = skipn n (zookeeper.pending (events (sess w)))
  /\ mu (sess (received_many n w)) = mu (sess w)
  /\ subscriptions (sess (received_many n w)) = subscriptions (sess w)
  /\ log (sess (received_many n w)) = log (sess w)
  /\ dials (received_many n w) = dials w.
Proof.
  revert w. induction n as [|n IH]; intros w.
  - cbn. auto 10.
  - cbn [received_many].
    destruct (IH (received_one w)) as (H1 & H2 & H3 & H4 & H5 & H6 & H7 & H8).
    rewrite H1, H2, H3, H4, H5, H6, H7, H8.
    cbn [received_one sess events with_events zookeeper.pending
         zookeeper.chan_id opts conn mu subscriptions log dials].
    repeat split.
    destruct (zookeeper.pending (events (sess w))); [|reflexivity].
    cbn [tl]. destruct n; reflexivity.
Qed.

Section Quiet.

Context (zk : zookeeper.Client).
Context (withID : option zookeeper.ClientId -> SessionOpt).

Lemma tick_associating (expired : bool) (w : World) ev :
  next_signal w = Some ev ->
  zookeeper.State ev = zookeeper.STATE_ASSOCIATING ->
  tick zk withID {| loop := Running expired; world := w |}
  = ({| loop := Running expired; world := received_one w |}, [ARecv ev]).
Proof.
  intros Hn Hs. unfold tick. cbn [loop world].
  rewrite (@iter_associating zk withID expired w ev Hn Hs).
  unfold next_signal in Hn.
  destruct (zookeeper.pending (events (sess w))); [discriminate Hn|].
  reflexivity.
Qed.

Lemma tick_other (expired : bool) (w : World) ev :
  next_signal w = Some ev ->
  ~ recognised (zookeeper.State ev) ->
  tick zk withID {| loop := Running expired; world := w |}
  = ({| loop := Running expired; world := received_one w |}, [ARecv ev]).
Proof.
  intros Hn Hs. unfold tick. cbn [loop world].
  rewrite (@iter_other zk withID expired w ev Hn Hs).
  unfold next_signal in Hn.
  destruct (zookeeper.pending (events (sess w))); [discriminate Hn|].
  reflexivity.
Qed.

Lemma run_associating (evs rest : list zookeeper.Event) (expired : bool)
      (w : World) :
  zookeeper.pending (events (sess w)) = evs ++ rest ->
  Forall (fun ev => zookeeper.State ev = zookeeper.STATE_ASSOCIATING) evs ->
  run zk withID (repeat Tick (List.length evs))
      {| loop := Running expired; world := w |}
  = ({| loop := Running expired; world := received_many (List.length evs) w |},
     map ARecv evs).
Proof.
  revert w. induction evs as [|ev evs IH]; intros w Hq Hall.
  - reflexivity.
  - inversion Hall as [|? ? Hs Hall']; subst.
    cbn [List.length repeat]. rewrite run_cons. cbn [step].
    assert (Hn : next_signal w = Some ev)
      by (unfold next_signal; rewrite Hq; reflexivity).
    rewrite (@tick_associating expired w ev Hn Hs). cbn [fst snd].
    rewrite IH; [reflexivity| |exact Hall'].
    cbn [received_one sess events with_events zookeeper.pending].
    rewrite Hq. reflexivity.
Qed.

End Quiet.

(** ** The registry over a sequence of calls *)

Lemma repeat_once {A} (l : list A) : flat_map (fun x => repeat x 1) l = l.
Proof.
  induction l as [|x l IH]; cbn in *; [reflexivity|rewrite IH; reflexivity].
Qed.

Lemma received_broadcast (sub : SubChan) (subs : list SubChan) e :
  received sub (broadcast subs e) = repeat e (count_occ Nat.eq_dec subs sub).
Proof.
  unfold broadcast.
  change (received sub (ANotify e :: ALock :: ?l)) with (received sub l).
  rewrite received_app, received_fanout. apply app_nil_r.
Qed.

Lemma registry_received (ops : list RegistryOp) (w : World) (sub : SubChan) :
  free w -> ~ In (Register sub) ops ->
  received sub (acts (registry_run ops w))
  = flat_map (fun e => repeat e (count_occ Nat.eq_dec (subscriptions (sess w)) sub))
             (broadcasts ops).
Proof.
  unfold registry_run.
  revert w. induction ops as [|op ops IH]; intros w Hfree Hnot.
  - reflexivity.
  - cbn [for_range].
    assert (Hnot' : ~ In (Register sub) ops)
      by (intros H; apply Hnot; right; exact H).
    destruct op as [c|e]; cbn [registry_step].
    + erewrite bind_done by (apply Subscribe_free; exact Hfree).
      unfold after. cbn [acts]. rewrite received_app.
      rewrite IH; [|exact Hfree|exact Hnot'].
      cbn [sess subscriptions with_subscriptions broadcasts flat_map app].
      rewrite count_occ_app. cbn [count_occ].
      destruct (Nat.eq_dec c sub) as [->|_].
      * exfalso. apply Hnot. left. reflexivity.
      * rewrite Nat.add_0_r. reflexivity.
    + erewrite bind_done by (apply notifySubscribers_free; exact Hfree).
      unfold after. cbn [acts]. rewrite received_app, received_broadcast.
      rewrite IH; [|exact Hfree|exact Hnot'].
      reflexivity.
Qed.

(** ** [manage] and the schedule that only lets the loop run *)

Section Schedule.

Context (zk : zookeeper.Client).
Context (withID : option zookeeper.ClientId -> SessionOpt).

Lemma run_ticks_exited (n : nat) (sys : System) :
  loop sys = Exited -> run zk withID (repeat Tick n) sys = (sys, []).
Proof.
  intros Hloop. induction n as [|n IH]; [reflexivity|].
  cbn [repeat]. rewrite run_cons. cbn [step]. unfold tick. rewrite Hloop.
  cbn [fst snd]. rewrite IH. reflexivity.
Qed.

Lemma run_ticks_waiting (n : nat) (sys : System) (expired : bool) :
  loop sys = Running expired -> next_signal (world sys) = None ->
  run zk withID (repeat Tick n) sys = (sys, []).
Proof.
  intros Hloop Hn. induction n as [|n IH]; [reflexivity|].
  cbn [repeat]. rewrite run_cons. cbn [step]. unfold tick. rewrite Hloop.
  unfold next_signal in Hn.
  destruct (zookeeper.pending (events (sess (world sys)))); [|discriminate Hn].
  cbn [fst snd]. rewrite IH. reflexivity.
Qed.

(** Running [manage] for [n] passes does what the schedule of [n] ticks
    does. *)
Lemma manage_as_schedule (n : nat) (expired : bool) (w : World) :
  free w ->
  acts (manage_loop zk withID n expired w)
  = snd (run zk withID (repeat Tick n) {| loop := Running expired; world := w |}).
Proof.
  revert expired w. induction n as [|n IH]; intros expired w Hfree.
  - reflexivity.
  - cbn [manage_loop].
    destruct (next_signal w) as [ev|] eqn:Hn.
    + destruct (@iter_summary zk withID expired w ev Hfree Hn)
        as (flow & Hout & Hfree' & _).
      erewrite bind_done
        by (rewrite (run_eta (manage_iter zk withID expired w)), Hout;
            reflexivity).
      unfold after. cbn [acts].
      cbn [repeat]. rewrite run_cons. cbn [step]. unfold tick at 2 3.
      cbn [loop world].
      unfold next_signal in Hn.
      destruct (zookeeper.pending (events (sess w))) as [|ev' q];
        [discriminate Hn|].
      rewrite Hout.
      destruct flow as [expired'|]; cbn [fst snd].
      * rewrite IH by exact Hfree'. reflexivity.
      * rewrite run_ticks_exited by reflexivity. reflexivity.
    + erewrite bind_parked by (apply iter_waiting; exact Hn).
      rewrite (@run_ticks_waiting (S n) {| loop := Running expired; world := w |}
                 expired eq_refl Hn).
      reflexivity.
Qed.

End Schedule.

(** ** Every signal sequence can be played *)

Section Played.

Context (zk : zookeeper.Client).
Context (withID : option zookeeper.ClientId -> SessionOpt).

(** The signal a pass stands for, and the world it leaves. *)
Lemma iter_signals (expired : bool) (w : World) (ev : zookeeper.Event) :
  free w -> next_signal w = Some ev ->
  signals (acts (manage_iter zk withID expired w))
  = (if zookeeper.State ev =? zookeeper.STATE_EXPIRED_SESSION
     then [SessionExpired (redial_succeeds (redial_of zk w))]
     else match signal_of_state (zookeeper.State ev) with
          | Some sig => [sig]
          | None => []
          end)
  /\ post (manage_iter zk withID expired w)
     = (if zookeeper.State ev =? zookeeper.STATE_EXPIRED_SESSION
        then match redial_of zk w with
             | zookeeper.RedialOk conn' events' =>
                 redialed zk withID conn' events' w
             | zookeeper.RedialErr _ =>
                 {| sess := sess (received_one w); dials := S (dials w) |}
             end
        else received_one w).
Proof.
  intros Hfree Hn.
  destruct (state_cases (zookeeper.State ev))
    as [Hs|[Hs|[Hs|[Hs|[Hs|[Hs|Hs]]]]]].
  - destruct (redial_of zk w) as [conn' events'|err] eqn:Hr.
    + erewrite iter_expired_redialed by eassumption. cbn [post acts].
      pick. rewrite Hs, Hr. split; reflexivity.
    + erewrite iter_expired_failed by eassumption. cbn [post acts].
      pick. rewrite Hs, Hr. split; reflexivity.
  - erewrite iter_auth_failed by eassumption. cbn [post acts].
    pick. rewrite Hs. split; reflexivity.
  - erewrite iter_connecting by eassumption. cbn [post acts].
    pick. rewrite Hs. split; reflexivity.
  - erewrite iter_associating by eassumption. cbn [post acts].
    pick. rewrite Hs. split; reflexivity.
  - erewrite iter_connected by eassumption. cbn [post acts].
    destruct expired; pick; rewrite Hs; split; reflexivity.
  - erewrite iter_closed by eassumption. cbn [post acts].
    pick. rewrite Hs. split; reflexivity.
  - erewrite iter_other by eassumption. cbn [post acts].
    pick. rewrite (@unrecognised_no_signal _ Hs).
    replace (zookeeper.State ev =? zookeeper.STATE_EXPIRED_SESSION) with false;
      [split; reflexivity|].
    symmetry. apply Z.eqb_neq. intros E. apply Hs. rewrite E.
    left. reflexivity.
Qed.

End Played.

Lemma skipn_head {A} (n : nat) (l : list A) (x : A) (r : list A) :
  skipn n l = x :: r -> nth_error l n = Some x /\ skipn (S n) l = r.
Proof.
  revert l. induction n as [|n IH]; intros l H.
  - cbn in H. subst l. split; reflexivity.
  - destruct l as [|y l]; [discriminate H|]. cbn [skipn] in H.
    destruct (IH l H) as [H1 H2]. split; [exact H1|exact H2].
Qed.

Lemma terminal_any_flag (sig : Signal) (expired : bool) :
  terminal (table sig expired) = terminal (table sig false).
Proof. destruct sig as [| | |[|]| |], expired; reflexivity. Qed.

Lemma table_events_taken (sigs : list Signal) (expired : bool) :
  table_events expired (Script.taken sigs) = table_events expired sigs.
Proof.
  revert expired. induction sigs as [|sig sigs IH]; intros expired.
  - reflexivity.
  - cbn [Script.taken table_events]. cbv zeta.
    rewrite <- (terminal_any_flag sig expired).
    destruct (terminal (table sig expired)); [reflexivity|].
    rewrite IH. reflexivity.
Qed.

Section Scripted.

Context (withID : option zookeeper.ClientId -> SessionOpt).
Context (sigs : list Signal).

(** From a world that stands somewhere inside the script, the loop takes
    the signals that are left, up to the first terminal one. *)
Lemma scripted_signals (remaining : list Signal) (n : nat) (expired : bool)
      (w : World) :
  free w ->
  zookeeper.pending (events (sess w)) = map Script.event_of remaining ->
  skipn (dials w) (Script.expiries sigs) = Script.expiries remaining ->
  (List.length remaining <= n)%nat ->
  signals (acts (manage_loop (Script.client sigs) withID n expired w))
  = Script.taken remaining.
Proof.
  revert n expired w.
  induction remaining as [|sig remaining IH]; intros n expired w Hfree Hq Hexp Hlen.
  - assert (Hn : next_signal w = None)
      by (unfold next_signal; rewrite Hq; reflexivity).
    destruct n as [|n]; [reflexivity|].
    cbn [manage_loop].
    erewrite bind_parked by (apply iter_waiting; exact Hn). reflexivity.
  - destruct n as [|n]; [cbn in Hlen; lia|].
    cbn [List.length] in Hlen. apply le_S_n in Hlen.
    assert (Hn : next_signal w = Some (Script.event_of sig))
      by (unfold next_signal; rewrite Hq; reflexivity).
    destruct (@iter_summary (Script.client sigs) withID expired w _ Hfree Hn)
      as (flow & Hout & Hfree' & _ & Hfl & _).
    destruct (@iter_signals (Script.client sigs) withID expired w _ Hfree Hn)
      as (Hsig & Hpost).
    cbn [manage_loop].
    erewrite bind_done
      by (rewrite (run_eta (manage_iter (Script.client sigs) withID expired w)),
            Hout; reflexivity).
    unfold after. cbn [acts]. rewrite signals_app.
    rewrite Hsig in Hfl |- *.
    assert (Hrest : zookeeper.pending (events (sess (received_one w)))
                    = map Script.event_of remaining)
      by (cbn [received_one sess events with_events zookeeper.pending];
          rewrite Hq; reflexivity).
    destruct sig as [| | |ok| |];
      cbn [Script.event_of Script.state_of zookeeper.State] in Hfl, Hpost |- *.
    all: try (change (zookeeper.STATE_CONNECTING =? zookeeper.STATE_EXPIRED_SESSION)
                with false in Hfl, Hpost |- * ).
    all: try (change (zookeeper.STATE_ASSOCIATING =? zookeeper.STATE_EXPIRED_SESSION)
                with false in Hfl, Hpost |- * ).
    all: try (change (zookeeper.STATE_CONNECTED =? zookeeper.STATE_EXPIRED_SESSION)
                with false in Hfl, Hpost |- * ).
    all: try (change (zookeeper.STATE_AUTH_FAILED =? zookeeper.STATE_EXPIRED_SESSION)
                with false in Hfl, Hpost |- * ).
    all: try (change (zookeeper.STATE_CLOSED =? zookeeper.STATE_EXPIRED_SESSION)
                with false in Hfl, Hpost |- * ).
    all: try (change (zookeeper.STATE_EXPIRED_SESSION =? zookeeper.STATE_EXPIRED_SESSION)
                with true in Hfl, Hpost |- * ).
    all: cbv iota in Hfl, Hpost |- *.
    + (* Connecting *)
      change (signal_of_state zookeeper.STATE_CONNECTING) with (Some Connecting)
        in Hfl |- *.
      cbn [table_state table terminal expired_next loop_of] in Hfl.
      destruct flow as [e'|]; [|discriminate Hfl].
      cbn [Script.taken table terminal app]. f_equal.
      apply IH; [exact Hfree'|rewrite Hpost; exact Hrest
                |rewrite Hpost; exact Hexp|exact Hlen].
    + (* Associating *)
      change (signal_of_state zookeeper.STATE_ASSOCIATING) with (Some Associating)
        in Hfl |- *.
      cbn [table_state table terminal expired_next loop_of] in Hfl.
      destruct flow as [e'|]; [|discriminate Hfl].
      cbn [Script.taken table terminal app]. f_equal.
      apply IH; [exact Hfree'|rewrite Hpost; exact Hrest
                |rewrite Hpost; exact Hexp|exact Hlen].
    + (* Connected *)
      change (signal_of_state zookeeper.STATE_CONNECTED) with (Some Connected)
        in Hfl |- *.
      assert (Hflow : exists e', flow = Continue e').
      { destruct flow as [e'|]; [exists e'; reflexivity|].
        destruct expired; discriminate Hfl. }
      destruct Hflow as (e' & ->).
      cbn [Script.taken table terminal app]. f_equal.
      apply IH; [exact Hfree'|rewrite Hpost; exact Hrest
                |rewrite Hpost; exact Hexp|exact Hlen].
    + (* SessionExpired *)
      cbn [Script.expiries] in Hexp.
      destruct (skipn_head _ _ Hexp) as (Hnth & Hskip).
      assert (Hr : redial_of (Script.client sigs) w
                   = if ok
                     then zookeeper.RedialOk (S (dials w))
                            (Script.stream_of (S (dials w)) remaining)
                     else zookeeper.RedialErr "no server answered").
      { unfold redial_of, Script.client. cbn [zookeeper.Redial].
        rewrite Hnth. destruct ok; reflexivity. }
      rewrite Hr in Hfl, Hpost |- *.
      destruct ok; cbn [redial_succeeds] in Hfl |- *;
        cbn [table_state table terminal expired_next loop_of] in Hfl.
      * destruct flow as [e'|]; [|discriminate Hfl].
        cbn [Script.taken table terminal app]. f_equal.
        apply IH; [exact Hfree'|rewrite Hpost; reflexivity
                  |rewrite Hpost; exact Hskip|exact Hlen].
      * destruct flow as [e'|]; [discriminate Hfl|].
        reflexivity.
    + (* AuthFailed *)
      change (signal_of_state zookeeper.STATE_AUTH_FAILED) with (Some AuthFailed)
        in Hfl |- *.
      cbn [table_state table terminal expired_next loop_of] in Hfl.
      destruct flow as [e'|]; [discriminate Hfl|].
      reflexivity.
    + (* Closed *)
      change (signal_of_state zookeeper.STATE_CLOSED) with (Some Closed)
        in Hfl |- *.
      cbn [table_state table terminal expired_next loop_of] in Hfl.
      destruct flow as [e'|]; [discriminate Hfl|].
      reflexivity.
Qed.

End Scripted.

(** * The claims *)

(** ** Runs of the instance

    The traces of section 8 of the specification, on the small instance. *)

Example connecting_connected :
  emitted (acts (manage Demo.zk Demo.WithZookeeperClientID 5
                   (Demo.world [zookeeper.STATE_CONNECTING;
                                zookeeper.STATE_CONNECTED])))
  = [SessionDisconnected; SessionReconnected].
Proof. reflexivity. Qed.

Example expired_then_connected :
  emitted (acts (manage Demo.zk Demo.WithZookeeperClientID 5
                   (Demo.world [zookeeper.STATE_EXPIRED_SESSION])))
  = [SessionExpiredReconnected]
  /\ signals (acts (manage Demo.zk Demo.WithZookeeperClientID 5
                      (Demo.world [zookeeper.STATE_EXPIRED_SESSION])))
     = [SessionExpired true; Connected].
Proof. split; reflexivity. Qed.

Example auth_failed_stops :
  emitted (acts (manage Demo.zk Demo.WithZookeeperClientID 5
                   (Demo.world [zookeeper.STATE_AUTH_FAILED;
                                zookeeper.STATE_CONNECTING;
                                zookeeper.STATE_CONNECTED])))
  = [SessionFailed].
Proof. reflexivity. Qed.

Section Claims.

Context (zk : zookeeper.Client).
Context (withID : option zookeeper.ClientId -> SessionOpt).

(** C1.  Whatever signals the loop takes from its stream, and however the
    redials it makes end, the lifecycle events it emits are those the table
    of section 4.1 gives for that signal sequence, the loop starting with
    [expired = false]: for [manage] run for any number of passes, and for the
    loop scheduled among callers of [Subscribe].  The events are a function
    of the signals: two runs that take the same signals, with the same
    redial outcomes, emit the same events, whatever the client library, the
    session and the number of passes.  And every finite sequence of the
    six signals, with any outcome for each redial, is taken by the loop when
    the client library delivers it: the events then emitted are those of
    the table for that sequence. *)
Theorem manage_follows_table
    (zk' : zookeeper.Client) (withID' : option zookeeper.ClientId -> SessionOpt)
    (n n' : nat) (ops : list Op) (w w' : World)
    (sigs : list Signal) (s : ZKSession) :
  free w -> free w' -> mu s = false ->
  emitted (acts (manage zk withID n w))
  = table_events false (signals (acts (manage zk withID n w)))
  /\ emitted (snd (run zk withID ops {| loop := Running false; world := w |}))
     = table_events false
         (signals (snd (run zk withID ops
                          {| loop := Running false; world := w |})))
  /\ (signals (acts (manage zk withID n w))
      = signals (acts (manage zk' withID' n' w')) ->
      emitted (acts (manage zk withID n w))
      = emitted (acts (manage zk' withID' n' w')))
  /\ signals (acts (manage (Script.client sigs) withID (List.length sigs)
                      (Script.world sigs s)))
     = Script.taken sigs
  /\ emitted (acts (manage (Script.client sigs) withID (List.length sigs)
                      (Script.world sigs s)))
     = table_events false sigs.
Proof.
  intros Hfree Hfree' Hs. unfold manage. split; [|split; [|split]].
  - apply manage_loop_table, Hfree.
  - apply run_table; [exact Hfree|reflexivity].
  - intros Hsame.
    rewrite (@manage_loop_table zk withID n false w Hfree).
    rewrite (@manage_loop_table zk' withID' n' false w' Hfree').
    rewrite Hsame. reflexivity.
  - assert (Hplayed :
              signals (acts (manage_loop (Script.client sigs) withID
                               (List.length sigs) false (Script.world sigs s)))
              = Script.taken sigs).
    { apply (@scripted_signals withID sigs sigs (List.length sigs) false
               (Script.world sigs s));
        [exact Hs|reflexivity|reflexivity|apply le_n]. }
    split; [exact Hplayed|].
    rewrite (@manage_loop_table (Script.client sigs) withID (List.length sigs)
               false (Script.world sigs s) Hs).
    rewrite Hplayed. apply table_events_taken.
Qed.

(** C2.  Once a terminal event, [SessionClosed] or [SessionFailed], has been
    emitted, [manage] has returned; the terminal event is the last event
    emitted and the only terminal one; and whatever is scheduled afterwards,
    further passes or callers registering new subscribers, no signal is
    taken, no redial is made, no event is emitted and nothing is sent to any
    subscriber. *)
Theorem terminal_event_is_final
    (ops1 ops2 : list Op) (w : World) (expired : bool) (e : ZKSessionEvent) :
  free w ->
  In e (emitted (snd (run zk withID ops1
                        {| loop := Running expired; world := w |}))) ->
  is_terminal e = true ->
  loop (fst (run zk withID ops1 {| loop := Running expired; world := w |}))
  = Exited
  /\ (exists earlier,
         emitted (snd (run zk withID ops1
                         {| loop := Running expired; world := w |}))
         = earlier ++ [e]
         /\ Forall (fun x => is_terminal x = false) earlier)
  /\ loop (fst (run zk withID ops2
                  (fst (run zk withID ops1
                          {| loop := Running expired; world := w |}))))
     = Exited
  /\ emitted (snd (run zk withID ops2
                     (fst (run zk withID ops1
                             {| loop := Running expired; world := w |}))))
     = []
  /\ sends (snd (run zk withID ops2
                   (fst (run zk withID ops1
                           {| loop := Running expired; world := w |}))))
     = []
  /\ consumed (snd (run zk withID ops2
                      (fst (run zk withID ops1
                              {| loop := Running expired; world := w |}))))
     = []
  /\ redials (snd (run zk withID ops2
                     (fst (run zk withID ops1
                             {| loop := Running expired; world := w |}))))
     = [].
Proof.
  intros Hfree Hin Hterm.
  destruct (@run_table zk withID ops1 {| loop := Running expired; world := w |}
              expired Hfree eq_refl) as (Hem & Hloop).
  rewrite Hem in Hin.
  destruct (@table_terminal_last _ _ _ Hin Hterm) as (Hst & earlier & Heq & Hall).
  rewrite Hst in Hloop. cbn [loop_of] in Hloop.
  split; [exact Hloop|].
  split; [exists earlier; rewrite Hem; auto|].
  destruct (@run_exited zk withID ops2 _ Hloop) as (Hx & H1 & _ & H3 & H4 & H5).
  auto 10.
Qed.

(** C3.  Between passes, the loop's variable [expired] is true exactly when
    the signals taken so far end inside an expiry interval: some session
    expiry answered by a successful redial has been processed and no
    [Connected] signal has been processed since.  In particular it is false
    at the start, false until an expiry, and false again once the next
    [Connected] has been processed. *)
Theorem expired_flag_interval (ops : list Op) (w : World) (b : bool) :
  free w ->
  loop (fst (run zk withID ops {| loop := Running false; world := w |}))
  = Running b ->
  (b = true <->
   in_expiry_interval
     (signals (snd (run zk withID ops
                      {| loop := Running false; world := w |})))).
Proof.
  intros Hfree Hrun.
  destruct (@run_table zk withID ops {| loop := Running false; world := w |}
              false Hfree eq_refl) as (_ & Hloop).
  rewrite Hrun in Hloop. apply loop_of_running in Hloop.
  rewrite (@table_state_interval _ _ _ Hloop).
  split; [intros [[Hf _]|H]; [discriminate Hf|exact H]|auto].
Qed.

(** C4, as the code has it.  Every pass-through operation reads [s.conn]
    as it is, without taking the mutex and whether or not it is held, calls
    the method of the same name on that handle once, with exactly the
    caller's arguments, and returns what the call returns; the session is
    left as it was. *)
Theorem passthrough_verbatim (w : World) (c : zookeeper.Conn) :
  conn (sess w) = Some c ->
  ZKSession_CurrentConnection zk w
  = MkRun (Done (zookeeper.CurrentServer zk c)) w [ACall c ReqCurrentServer]
  /\ ZKSession_CurrentServer zk w
     = MkRun (Done (zookeeper.ConnectedServer zk c)) w
         [ACall c ReqConnectedServer]
  /\ (forall delay,
         ZKSession_SetServersResolutionDelay zk delay w
         = MkRun (Done (zookeeper.SetServersResolutionDelay zk c delay)) w
             [ACall c (ReqSetServersResolutionDelay delay)])
  /\ (forall path,
         ZKSession_ACL zk path w
         = MkRun (Done (zookeeper.ACL_ zk c path)) w [ACall c (ReqACL path)])
  /\ (forall scheme cert,
         ZKSession_AddAuth zk scheme cert w
         = MkRun (Done (zookeeper.AddAuth zk c scheme cert)) w
             [ACall c (ReqAddAuth scheme cert)])
  /\ (forall path,
         ZKSession_Children zk path w
         = MkRun (Done (zookeeper.Children zk c path)) w
             [ACall c (ReqChildren path)])
  /\ (forall path,
         ZKSession_ChildrenW zk path w
         = MkRun (Done (zookeeper.ChildrenW zk c path)) w
             [ACall c (ReqChildrenW path)])
  /\ ZKSession_ClientId zk w
     = MkRun (Done (zookeeper.ClientId_ zk c)) w [ACall c ReqClientId]
  /\ ZKSession_Close zk w
     = MkRun (Done (zookeeper.Close zk c)) w [ACall c ReqClose]
  /\ (forall path value flags aclv,
         ZKSession_Create zk path value flags aclv w
         = MkRun (Done (zookeeper.Create zk c path value flags aclv)) w
             [ACall c (ReqCreate path value flags aclv)])
  /\ (forall path version,
         ZKSession_Delete zk path version w
         = MkRun (Done (zookeeper.Delete zk c path version)) w
             [ACall c (ReqDelete path version)])
  /\ (forall path,
         ZKSession_Exists zk path w
         = MkRun (Done (zookeeper.Exists_ zk c path)) w
             [ACall c (ReqExists path)])
  /\ (forall path,
         ZKSession_ExistsW zk path w
         = MkRun (Done (zookeeper.ExistsW zk c path)) w
             [ACall c (ReqExistsW path)])
  /\ (forall path,
         ZKSession_Get zk path w
         = MkRun (Done (zookeeper.Get zk c path)) w [ACall c (ReqGet path)])
  /\ (forall path,
         ZKSession_GetW zk path w
         = MkRun (Done (zookeeper.GetW zk c path)) w [ACall c (ReqGetW path)])
  /\ (forall path value version,
         ZKSession_Set zk path value version w
         = MkRun (Done (zookeeper.Set_ zk c path value version)) w
             [ACall c (ReqSet path value version)])
  /\ (forall path flags acl changeFunc,
         ZKSession_RetryChange zk path flags acl changeFunc w
         = MkRun (Done (zookeeper.RetryChange zk c path flags acl changeFunc)) w
             [ACall c (ReqRetryChange path flags acl changeFunc)])
  /\ (forall path aclv version,
         ZKSession_SetACL zk path aclv version w
         = MkRun (Done (zookeeper.SetACL zk c path aclv version)) w
             [ACall c (ReqSetACL path aclv version)]).
Proof.
  destruct w as [[o cn ch m subs lg] d]. cbn [sess conn]. intros ->.
  repeat split.
Qed.

Lemma not_in_logged (a : Action) (lg : stdLogger) format v :
  (forall s, a <> ALog s) -> ~ In a (logged lg format v).
Proof.
  intros Ha Hin. unfold logged in Hin. apply in_map_iff in Hin.
  destruct Hin as (s & <- & _). apply (Ha s). reflexivity.
Qed.

Lemma not_in_close_effects (a : Action) old lg :
  (forall s, a <> ALog s) -> (forall c r, a <> ACall c r) ->
  ~ In a (close_effects zk old lg).
Proof.
  intros Hl Hc. unfold close_effects. destruct old as [c|]; [|intros []].
  intros [H|H]; [apply (Hc c ReqClose); symmetry; exact H|].
  destruct (zookeeper.Close zk c); [|destruct H].
  apply (@not_in_logged a lg _ _ Hl H).
Qed.

(** C5.  A session expiry whose redial succeeds emits no event and sends
    nothing.  The three assignments, of the new handle to [conn], of the new
    stream to [events] and of the options carrying the new handle's token to
    [opts], all happen between taking the mutex and releasing it, after the
    token has been asked of the new handle; and the next dial made
    afterwards, whatever is scheduled in between, is given that token.  The
    option builder is taken to store the token it is given. *)
Theorem redial_installs_new_session
    (expired : bool) (w : World) (ev : zookeeper.Event)
    (conn' : zookeeper.Conn) (events' : zookeeper.EventChan) :
  free w -> next_signal w = Some ev ->
  zookeeper.State ev = zookeeper.STATE_EXPIRED_SESSION ->
  redial_of zk w = zookeeper.RedialOk conn' events' ->
  (forall id so, clientID (withID id so) = id) ->
  out (manage_iter zk withID expired w) = Done (Continue true)
  /\ emitted (acts (manage_iter zk withID expired w)) = []
  /\ sends (acts (manage_iter zk withID expired w)) = []
  /\ (exists before inside afterwards,
         acts (manage_iter zk withID expired w)
         = before ++ ALock :: inside ++ AUnlock :: afterwards
         /\ ~ In ALock before /\ writes before = []
         /\ ~ In AUnlock inside
         /\ writes inside = [f_conn; f_events; f_opts]
         /\ In (ACall conn' ReqClientId) inside
         /\ writes afterwards = [])
  /\ conn (sess (post (manage_iter zk withID expired w))) = Some conn'
  /\ events (sess (post (manage_iter zk withID expired w))) = events'
  /\ clientID (opts (sess (post (manage_iter zk withID expired w))))
     = zookeeper.ClientId_ zk conn'
  /\ mu (sess (post (manage_iter zk withID expired w))) = false
  /\ (forall ops x later,
         redials (snd (run zk withID ops
                         {| loop := Running true;
                            world := post (manage_iter zk withID expired w) |}))
         = x :: later ->
         snd (fst x) = zookeeper.ClientId_ zk conn').
Proof.
  intros Hfree Hn Hs Hr Hwith.
  rewrite (@iter_expired_redialed zk withID expired w ev conn' events'
             Hfree Hn Hs Hr).
  cbn [out post acts].
  split; [reflexivity|].
  split; [pick; reflexivity|].
  split; [pick; reflexivity|].
  split.
  { exists (ARecv ev
            :: logged (log (sess w))
                 "gozk-recipes/session: got STATE_EXPIRED_SESSION for conn %+v"
                 [ArgConn (conn (sess w))]
            ++ redial_action zk w
            :: logged (log (sess w))
                 "gozk-recipes/session: STATE_EXPIRED_SESSION redialed conn %+v"
                 [ArgConn (Some conn')]),
           (close_effects zk (conn (sess w)) (log (sess w))
            ++ [AWrite f_conn; AWrite f_events; ACall conn' ReqClientId;
                AWrite f_opts]),
           (ACall conn' ReqConnectedServer
            :: logged (log (sess w))
                 "gozk-recipes/session: session re-established with %s"
                 [ArgStr (zookeeper.ConnectedServer zk conn')]).
    split.
    { cbn [app]. rewrite <- ?app_assoc. cbn [app]. rewrite <- ?app_assoc.
      reflexivity. }
    split.
    { intros [H|H]; [discriminate H|].
      apply in_app_or in H. destruct H as [H|[H|H]].
      - apply not_in_logged in H; [exact H|discriminate].
      - discriminate H.
      - apply not_in_logged in H; [exact H|discriminate]. }
    split; [pick; reflexivity|].
    split.
    { intros H. apply in_app_or in H. destruct H as [H|H].
      - apply not_in_close_effects in H; [exact H|discriminate|discriminate].
      - cbn [In] in H. intuition discriminate. }
    split; [pick; reflexivity|].
    split; [apply in_or_app; right; cbn [In]; auto|].
    pick. reflexivity. }
  split; [reflexivity|].
  split; [reflexivity|].
  split; [apply Hwith|].
  split; [exact Hfree|].
  intros ops x later Hred.
  rewrite (@run_first_redial zk withID ops
             {| loop := Running true;
                world := redialed zk withID conn' events' w |}
             x later Hfree Hred).
  cbn [world redialed sess opts dial_args snd].
  apply Hwith.
Qed.

(** C6.  When closing the handle that a successful redial replaces fails,
    the error goes to the logger and nowhere else: the pass ends like any
    other successful redial, with the loop going on, no event emitted,
    nothing sent to a subscriber, and the new handle, stream and token
    installed. *)
Theorem close_error_is_swallowed
    (expired : bool) (w : World) (ev : zookeeper.Event)
    (conn' : zookeeper.Conn) (events' : zookeeper.EventChan)
    (old : zookeeper.Conn) (err : error) :
  free w -> next_signal w = Some ev ->
  zookeeper.State ev = zookeeper.STATE_EXPIRED_SESSION ->
  redial_of zk w = zookeeper.RedialOk conn' events' ->
  conn (sess w) = Some old -> zookeeper.Close zk old = Some err ->
  out (manage_iter zk withID expired w) = Done (Continue true)
  /\ emitted (acts (manage_iter zk withID expired w)) = []
  /\ sends (acts (manage_iter zk withID expired w)) = []
  /\ (exists before afterwards,
         acts (manage_iter zk withID expired w)
         = before
           ++ ACall old ReqClose
           :: logged (log (sess w))
                "gozk-recipes/session: error in closing existing zookeeper connection: %v"
                [ArgErr err]
           ++ afterwards)
  /\ conn (sess (post (manage_iter zk withID expired w))) = Some conn'
  /\ events (sess (post (manage_iter zk withID expired w))) = events'
  /\ opts (sess (post (manage_iter zk withID expired w)))
     = withID (zookeeper.ClientId_ zk conn') (opts (sess w))
  /\ post (manage_iter zk withID expired w) = redialed zk withID conn' events' w.
Proof.
  intros Hfree Hn Hs Hr Hold Herr.
  rewrite (@iter_expired_redialed zk withID expired w ev conn' events'
             Hfree Hn Hs Hr).
  cbn [out post acts].
  split; [reflexivity|].
  split; [pick; reflexivity|].
  split; [pick; reflexivity|].
  split; [|repeat split].
  rewrite Hold. unfold close_effects. rewrite Herr.
  exists (ARecv ev
          :: logged (log (sess w))
               "gozk-recipes/session: got STATE_EXPIRED_SESSION for conn %+v"
               [ArgConn (Some old)]
          ++ redial_action zk w
          :: logged (log (sess w))
               "gozk-recipes/session: STATE_EXPIRED_SESSION redialed conn %+v"
               [ArgConn (Some conn')]
          ++ [ALock]),
         ([AWrite f_conn; AWrite f_events; ACall conn' ReqClientId;
           AWrite f_opts; AUnlock; ACall conn' ReqConnectedServer]
          ++ logged (log (sess w))
               "gozk-recipes/session: session re-established with %s"
               [ArgStr (zookeeper.ConnectedServer zk conn')]).
  cbn [app]. rewrite <- ?app_assoc. cbn [app]. rewrite <- ?app_assoc.
  cbn [app]. reflexivity.
Qed.

(** C8.  A pass that takes an [Associating] signal only takes it: no
    event, no send, no assignment to a field, no dial, and the loop goes on
    with [expired] as it was.  The same holds for any number of them in a
    row: afterwards the options with the token, the handle, the subscribers
    and the channel [s.events] refers to are those from before, and what is
    left on that channel are the signals behind the ones taken. *)
Theorem associating_is_noop
    (expired : bool) (w : World) (evs rest : list zookeeper.Event) :
  zookeeper.pending (events (sess w)) = evs ++ rest ->
  Forall (fun ev => zookeeper.State ev = zookeeper.STATE_ASSOCIATING) evs ->
  (forall ev evs', evs = ev :: evs' ->
      manage_iter zk withID expired w
      = MkRun (Done (Continue expired)) (received_one w) [ARecv ev])
  /\ run zk withID (repeat Tick (List.length evs))
         {| loop := Running expired; world := w |}
     = ({| loop := Running expired;
           world := received_many (List.length evs) w |},
        map ARecv evs)
  /\ emitted (map ARecv evs) = []
  /\ sends (map ARecv evs) = []
  /\ writes (map ARecv evs) = []
  /\ redials (map ARecv evs) = []
  /\ opts (sess (received_many (List.length evs) w)) = opts (sess w)
  /\ conn (sess (received_many (List.length evs) w)) = conn (sess w)
  /\ zookeeper.chan_id (events (sess (received_many (List.length evs) w)))
     = zookeeper.chan_id (events (sess w))
  /\ zookeeper.pending (events (sess (received_many (List.length evs) w)))
     = rest
  /\ mu (sess (received_many (List.length evs) w)) = mu (sess w)
  /\ subscriptions (sess (received_many (List.length evs) w))
     = subscriptions (sess w)
  /\ log (sess (received_many (List.length evs) w)) = log (sess w)
  /\ dials (received_many (List.length evs) w) = dials w.
Proof.
  intros Hq Hall.
  split.
  { intros ev evs' ->. inversion Hall as [|? ? Hs _]; subst.
    assert (Hn : next_signal w = Some ev)
      by (unfold next_signal; rewrite Hq; reflexivity).
    exact (@iter_associating zk withID expired w ev Hn Hs). }
  split; [apply (@run_associating zk withID evs rest expired w Hq Hall)|].
  assert (Hmap : forall A (f : Action -> list A),
             (forall ev, f (ARecv ev) = []) -> flat_map f (map ARecv evs) = []).
  { intros A f Hf. clear Hq Hall.
    induction evs as [|ev evs' IH]; [reflexivity|].
    cbn [map flat_map]. rewrite Hf, IH. reflexivity. }
  split; [apply Hmap; reflexivity|].
  split; [apply Hmap; reflexivity|].
  split; [apply Hmap; reflexivity|].
  split; [apply Hmap; reflexivity|].
  destruct (received_many_fields (List.length evs) w)
    as (H1 & H2 & H3 & H4 & H5 & H6 & H7 & H8).
  rewrite H4, Hq, skipn_app, skipn_all, Nat.sub_diag.
  cbn [skipn app]. auto 10.
Qed.

(** C10.  A pass that takes a signal whose state is none of the six the
    switch names only takes it: the pass completes, emits no event, sends
    nothing, assigns to no field, and the loop goes on to the next signal
    with [expired] as it was. *)
Theorem unrecognised_state_is_noop
    (expired : bool) (w : World) (ev : zookeeper.Event) (n : nat) :
  next_signal w = Some ev ->
  ~ recognised (zookeeper.State ev) ->
  manage_iter zk withID expired w
  = MkRun (Done (Continue expired)) (received_one w) [ARecv ev]
  /\ tick zk withID {| loop := Running expired; world := w |}
     = ({| loop := Running expired; world := received_one w |}, [ARecv ev])
  /\ manage_loop zk withID (S n) expired w
     = after [ARecv ev] (manage_loop zk withID n expired (received_one w))
  /\ emitted (acts (manage_iter zk withID expired w)) = []
  /\ sends (acts (manage_iter zk withID expired w)) = []
  /\ writes (acts (manage_iter zk withID expired w)) = []
  /\ redials (acts (manage_iter zk withID expired w)) = []
  /\ opts (sess (received_one w)) = opts (sess w)
  /\ conn (sess (received_one w)) = conn (sess w)
  /\ zookeeper.chan_id (events (sess (received_one w)))
     = zookeeper.chan_id (events (sess w))
  /\ zookeeper.pending (events (sess (received_one w)))
     = tl (zookeeper.pending (events (sess w)))
  /\ mu (sess (received_one w)) = mu (sess w)
  /\ subscriptions (sess (received_one w)) = subscriptions (sess w)
  /\ log (sess (received_one w)) = log (sess w)
  /\ dials (received_one w) = dials w.
Proof.
  intros Hn Hs.
  pose proof (@iter_other zk withID expired w ev Hn Hs) as Hiter.
  split; [exact Hiter|].
  split; [apply (@tick_other zk withID expired w ev Hn Hs)|].
  split.
  { cbn [manage_loop]. erewrite bind_done by exact Hiter. reflexivity. }
  rewrite Hiter. cbn [acts]. repeat split.
Qed.

End Claims.

(** C7, as the code has it.  With the mutex free, a broadcast takes the
    mutex, sends the event once for every entry of [subscriptions], in the
    order of registration, and releases the mutex, leaving the session as it
    was.  A channel therefore receives every broadcast event as many times
    as it is registered, in the order of emission; a channel registered
    once receives exactly the events broadcast, in that order. *)
Theorem broadcast_per_registration
    (w : World) (e : ZKSessionEvent) (ops : list RegistryOp) (sub : SubChan) :
  free w -> ~ In (Register sub) ops ->
  notifySubscribers e w
  = MkRun (Done tt) w
      (ANotify e :: ALock
       :: map (fun c => ASend c e) (subscriptions (sess w)) ++ [AUnlock])
  /\ sends (acts (notifySubscribers e w))
     = map (fun c => (c, e)) (subscriptions (sess w))
  /\ received sub (acts (registry_run ops w))
     = flat_map
         (fun e' => repeat e' (count_occ Nat.eq_dec (subscriptions (sess w)) sub))
         (broadcasts ops)
  /\ (count_occ Nat.eq_dec (subscriptions (sess w)) sub = 1%nat ->
      received sub (acts (registry_run ops w)) = broadcasts ops).
Proof.
  intros Hfree Hnot.
  pose proof (@notifySubscribers_free e w Hfree) as Hn.
  pose proof (@registry_received ops w sub Hfree Hnot) as Hr.
  split; [exact Hn|].
  split.
  { rewrite Hn. cbn [acts]. unfold broadcast.
    change (sends (ANotify e :: ALock :: ?l)) with (sends l).
    rewrite sends_app, sends_fanout. apply app_nil_r. }
  split; [exact Hr|].
  intros Hone. rewrite Hr, Hone. apply repeat_once.
Qed.

(** C9.  [NewSessionWithOpts] builds the options it hands to [Create] from
    a receive timeout of five seconds and the logger that does nothing:
    options that leave the receive timeout alone leave it at exactly five
    seconds, options that leave the logger alone leave the no-op logger,
    whose [Printf] writes nothing, so that a session logging through it logs
    nothing; and these are the options [Create] is called with. *)
Theorem NewSessionWithOpts_defaults
    (create : SessionOpts -> World + error) (opts : list SessionOpt) :
  ((forall o so, In o opts -> recvTimeout (o so) = recvTimeout so) ->
   recvTimeout (sessionOpts opts) = 5000000000)
  /\ ((forall o so, In o opts -> logger (o so) = logger so) ->
      logger (sessionOpts opts) = nullLogger)
  /\ (forall format v, Printf nullLogger format v = [])
  /\ (forall w format v, log (sess w) = nullLogger ->
         logf format v w = MkRun (Done tt) w [])
  /\ NewSessionWithOpts create opts
     = match create (sessionOpts opts) with
       | inl session => inl (session, false)
       | inr err => inr (String.append "creating zookeeper session: " err)
       end.
Proof.
  assert (Hfold : forall (A : Type) (get : SessionOpts -> A) l so,
             (forall o so', In o l -> get (o so') = get so') ->
             get (fold_left (fun so' (o : SessionOpt) => o so') l so) = get so).
  { intros A get l. induction l as [|o l IH]; intros so H; [reflexivity|].
    cbn [fold_left]. rewrite IH.
    - apply H. left. reflexivity.
    - intros o' so' Hin. apply H. right. exact Hin. }
  unfold sessionOpts.
  split; [intros H; rewrite (Hfold _ recvTimeout opts _ H); reflexivity|].
  split; [intros H; rewrite (Hfold _ logger opts _ H); reflexivity|].
  split; [reflexivity|].
  split; [|reflexivity].
  intros w format v Hlog. unfold logf. rewrite Hlog. reflexivity.
Qed.

(** ** The claims on the instance *)

Lemma manage_follows_table_witness :
  free (Demo.world [zookeeper.STATE_CONNECTING; zookeeper.STATE_CONNECTED])
  /\ mu (Demo.session []) = false
  /\ emitted (acts (manage Demo.zk Demo.WithZookeeperClientID 3
                      (Demo.world [zookeeper.STATE_CONNECTING;
                                   zookeeper.STATE_CONNECTED])))
     = table_events false
         (signals (acts (manage Demo.zk Demo.WithZookeeperClientID 3
                           (Demo.world [zookeeper.STATE_CONNECTING;
                                        zookeeper.STATE_CONNECTED])))).
Proof.
  split; [reflexivity|]. split; [reflexivity|].
  apply (@manage_follows_table
           Demo.zk Demo.WithZookeeperClientID
           Demo.zk Demo.WithZookeeperClientID 3 3 []
           (Demo.world [zookeeper.STATE_CONNECTING; zookeeper.STATE_CONNECTED])
           (Demo.world [zookeeper.STATE_CONNECTING; zookeeper.STATE_CONNECTED])
           [SessionExpired true; Connected; Closed] (Demo.session []));
    reflexivity.
Defined.

Lemma terminal_event_is_final_witness :
  free (Demo.world [zookeeper.STATE_AUTH_FAILED; zookeeper.STATE_CONNECTING])
  /\ In SessionFailed
        (emitted (snd (run Demo.zk Demo.WithZookeeperClientID [Tick]
                         {| loop := Running false;
                            world := Demo.world [zookeeper.STATE_AUTH_FAILED;
                                                 zookeeper.STATE_CONNECTING] |})))
  /\ is_terminal SessionFailed = true
  /\ loop (fst (run Demo.zk Demo.WithZookeeperClientID [Tick]
                  {| loop := Running false;
                     world := Demo.world [zookeeper.STATE_AUTH_FAILED;
                                          zookeeper.STATE_CONNECTING] |}))
     = Exited.
Proof.
  split; [reflexivity|]. split; [left; reflexivity|]. split; [reflexivity|].
  apply (@terminal_event_is_final
           Demo.zk Demo.WithZookeeperClientID
           [Tick] [CallSubscribe 12%nat; Tick]
           (Demo.world [zookeeper.STATE_AUTH_FAILED; zookeeper.STATE_CONNECTING])
           false SessionFailed);
    [reflexivity|left; reflexivity|reflexivity].
Defined.

Lemma expired_flag_interval_witness :
  free (Demo.world [zookeeper.STATE_EXPIRED_SESSION])
  /\ loop (fst (run Demo.zk Demo.WithZookeeperClientID [Tick]
                  {| loop := Running false;
                     world := Demo.world [zookeeper.STATE_EXPIRED_SESSION] |}))
     = Running true
  /\ (true = true <->
      in_expiry_interval
        (signals (snd (run Demo.zk Demo.WithZookeeperClientID [Tick]
                         {| loop := Running false;
                            world := Demo.world [zookeeper.STATE_EXPIRED_SESSION] |})))).
Proof.
  split; [reflexivity|]. split; [reflexivity|].
  apply (@expired_flag_interval
           Demo.zk Demo.WithZookeeperClientID [Tick]
           (Demo.world [zookeeper.STATE_EXPIRED_SESSION]) true);
    reflexivity.
Defined.

(** C4, as stated, fails: with the mutex held by another goroutine, so that
    [Subscribe] waits for it, [Get] still reads the handle and returns the
    library's answer; it never takes the mutex. *)
Lemma passthrough_reads_handle_without_mutex :
  mu (sess Demo.held_world) = true
  /\ out (Subscribe 12%nat Demo.held_world) = Parked
  /\ ZKSession_Get Demo.zk "/lock" Demo.held_world
     = MkRun (Done ("value of /lock", None, None)) Demo.held_world
         [ACall 1%nat (ReqGet "/lock")]
  /\ ~ In ALock (acts (ZKSession_Get Demo.zk "/lock" Demo.held_world)).
Proof.
  split; [reflexivity|]. split; [reflexivity|]. split; [reflexivity|].
  cbn. intros [H|[]]. discriminate H.
Qed.

Lemma passthrough_verbatim_witness :
  conn (sess Demo.held_world) = Some 1%nat
  /\ ZKSession_Get Demo.zk "/lock" Demo.held_world
     = MkRun (Done (zookeeper.Get Demo.zk 1%nat "/lock")) Demo.held_world
         [ACall 1%nat (ReqGet "/lock")].
Proof.
  split; [reflexivity|].
  apply (@passthrough_verbatim Demo.zk Demo.held_world 1%nat). reflexivity.
Defined.

Lemma redial_installs_new_session_witness :
  free (Demo.world [zookeeper.STATE_EXPIRED_SESSION])
  /\ next_signal (Demo.world [zookeeper.STATE_EXPIRED_SESSION])
     = Some (Demo.session_event zookeeper.STATE_EXPIRED_SESSION)
  /\ redial_of Demo.zk (Demo.world [zookeeper.STATE_EXPIRED_SESSION])
     = zookeeper.RedialOk 2%nat
         {| zookeeper.chan_id := 2%nat;
            zookeeper.pending := [Demo.session_event zookeeper.STATE_CONNECTED] |}
  /\ out (manage_iter Demo.zk Demo.WithZookeeperClientID false
            (Demo.world [zookeeper.STATE_EXPIRED_SESSION]))
     = Done (Continue true).
Proof.
  split; [reflexivity|]. split; [reflexivity|]. split; [reflexivity|].
  apply (@redial_installs_new_session
           Demo.zk Demo.WithZookeeperClientID false
           (Demo.world [zookeeper.STATE_EXPIRED_SESSION])
           (Demo.session_event zookeeper.STATE_EXPIRED_SESSION)
           2%nat
           {| zookeeper.chan_id := 2%nat;
              zookeeper.pending := [Demo.session_event zookeeper.STATE_CONNECTED] |});
    reflexivity.
Defined.

Lemma close_error_is_swallowed_witness :
  conn (sess (Demo.world [zookeeper.STATE_EXPIRED_SESSION])) = Some 1%nat
  /\ zookeeper.Close Demo.zk 1%nat = Some "already closed"
  /\ out (manage_iter Demo.zk Demo.WithZookeeperClientID false
            (Demo.world [zookeeper.STATE_EXPIRED_SESSION]))
     = Done (Continue true).
Proof.
  split; [reflexivity|]. split; [reflexivity|].
  apply (@close_error_is_swallowed
           Demo.zk Demo.WithZookeeperClientID false
           (Demo.world [zookeeper.STATE_EXPIRED_SESSION])
           (Demo.session_event zookeeper.STATE_EXPIRED_SESSION)
           2%nat
           {| zookeeper.chan_id := 2%nat;
              zookeeper.pending := [Demo.session_event zookeeper.STATE_CONNECTED] |}
           1%nat "already closed");
    reflexivity.
Defined.

(** C7, as stated, fails for a channel that is registered twice: it is sent
    the event twice. *)
Lemma duplicate_registration_delivers_twice :
  received 7%nat
    (acts (registry_run [Register 7%nat; Register 7%nat;
                         Broadcast SessionDisconnected]
                        (Demo.world [])))
  = [SessionDisconnected; SessionDisconnected]
  /\ sends (acts (notifySubscribers SessionDisconnected
                    {| sess := with_subscriptions [7%nat; 7%nat] (Demo.session []);
                       dials := 0 |}))
     = [(7%nat, SessionDisconnected); (7%nat, SessionDisconnected)].
Proof. split; reflexivity. Qed.

Lemma broadcast_per_registration_witness :
  free (Demo.world [])
  /\ ~ In (Register 10%nat)
          [Broadcast SessionDisconnected; Register 12%nat;
           Broadcast SessionReconnected]
  /\ received 10%nat
       (acts (registry_run [Broadcast SessionDisconnected; Register 12%nat;
                            Broadcast SessionReconnected]
                           (Demo.world [])))
     = [SessionDisconnected; SessionReconnected].
Proof.
  assert (Hnot : ~ In (Register 10%nat)
                     [Broadcast SessionDisconnected; Register 12%nat;
                      Broadcast SessionReconnected])
    by (cbn; intros [H|[H|[H|[]]]]; discriminate H).
  split; [reflexivity|]. split; [exact Hnot|].
  apply (@broadcast_per_registration
           (Demo.world []) SessionDisconnected
           [Broadcast SessionDisconnected; Register 12%nat;
            Broadcast SessionReconnected]
           10%nat eq_refl Hnot).
  reflexivity.
Defined.

Lemma associating_is_noop_witness :
  zookeeper.pending
    (events (sess (Demo.world [zookeeper.STATE_ASSOCIATING;
                               zookeeper.STATE_ASSOCIATING;
                               zookeeper.STATE_CONNECTED])))
  = [Demo.session_event zookeeper.STATE_ASSOCIATING;
     Demo.session_event zookeeper.STATE_ASSOCIATING]
    ++ [Demo.session_event zookeeper.STATE_CONNECTED]
  /\ Forall (fun ev => zookeeper.State ev = zookeeper.STATE_ASSOCIATING)
            [Demo.session_event zookeeper.STATE_ASSOCIATING;
             Demo.session_event zookeeper.STATE_ASSOCIATING]
  /\ run Demo.zk Demo.WithZookeeperClientID (repeat Tick 2)
         {| loop := Running true;
            world := Demo.world [zookeeper.STATE_ASSOCIATING;
                                 zookeeper.STATE_ASSOCIATING;
                                 zookeeper.STATE_CONNECTED] |}
     = ({| loop := Running true;
           world := received_many 2
                      (Demo.world [zookeeper.STATE_ASSOCIATING;
                                   zookeeper.STATE_ASSOCIATING;
                                   zookeeper.STATE_CONNECTED]) |},
        map ARecv [Demo.session_event zookeeper.STATE_ASSOCIATING;
                   Demo.session_event zookeeper.STATE_ASSOCIATING]).
Proof.
  assert (Hall : Forall (fun ev => zookeeper.State ev = zookeeper.STATE_ASSOCIATING)
                        [Demo.session_event zookeeper.STATE_ASSOCIATING;
                         Demo.session_event zookeeper.STATE_ASSOCIATING])
    by (repeat constructor).
  split; [reflexivity|]. split; [exact Hall|].
  apply (@associating_is_noop
           Demo.zk Demo.WithZookeeperClientID true
           (Demo.world [zookeeper.STATE_ASSOCIATING; zookeeper.STATE_ASSOCIATING;
                        zookeeper.STATE_CONNECTED])
           [Demo.session_event zookeeper.STATE_ASSOCIATING;
            Demo.session_event zookeeper.STATE_ASSOCIATING]
           [Demo.session_event zookeeper.STATE_CONNECTED]
           eq_refl Hall).
Defined.

Lemma unrecognised_state_is_noop_witness :
  next_signal (Demo.world [7; zookeeper.STATE_CONNECTING])
  = Some (Demo.session_event 7)
  /\ ~ recognised (zookeeper.State (Demo.session_event 7))
  /\ manage_iter Demo.zk Demo.WithZookeeperClientID true
       (Demo.world [7; zookeeper.STATE_CONNECTING])
     = MkRun (Done (Continue true))
         (received_one (Demo.world [7; zookeeper.STATE_CONNECTING]))
         [ARecv (Demo.session_event 7)].
Proof.
  assert (Hnot : ~ recognised (zookeeper.State (Demo.session_event 7)))
    by (unfold recognised; cbn; intros [H|[H|[H|[H|[H|[H|[]]]]]]];
        discriminate H).
  split; [reflexivity|]. split; [exact Hnot|].
  apply (@unrecognised_state_is_noop
           Demo.zk Demo.WithZookeeperClientID true
           (Demo.world [7; zookeeper.STATE_CONNECTING])
           (Demo.session_event 7) 1 eq_refl Hnot).
Defined.

Lemma NewSessionWithOpts_defaults_witness :
  (forall o so,
      In o [Demo.WithZookeeperClientID (Some (Demo.token 1%nat))] ->
      recvTimeout (o so) = recvTimeout so)
  /\ (forall o so,
         In o [Demo.WithZookeeperClientID (Some (Demo.token 1%nat))] ->
         logger (o so) = logger so)
  /\ recvTimeout (sessionOpts [Demo.WithZookeeperClientID (Some (Demo.token 1%nat))])
     = 5000000000
  /\ logger (sessionOpts [Demo.WithZookeeperClientID (Some (Demo.token 1%nat))])
     = nullLogger.
Proof.
  assert (H1 : forall o so,
             In o [Demo.WithZookeeperClientID (Some (Demo.token 1%nat))] ->
             recvTimeout (o so) = recvTimeout so)
    by (intros o so [<-|[]]; reflexivity).
  assert (H2 : forall o so,
             In o [Demo.WithZookeeperClientID (Some (Demo.token 1%nat))] ->
             logger (o so) = logger so)
    by (intros o so [<-|[]]; reflexivity).
  split; [exact H1|]. split; [exact H2|].
  split.
  - apply (@NewSessionWithOpts_defaults
             (fun _ => inr "no server answered")
             [Demo.WithZookeeperClientID (Some (Demo.token 1%nat))]).
    exact H1.
  - apply (@NewSessionWithOpts_defaults
             (fun _ => inr "no server answered")
             [Demo.WithZookeeperClientID (Some (Demo.token 1%nat))]).
    exact H2.
Defined.

(** * Further properties of the session *)

(** ** Lifting a property of single calls to schedules *)

Section Lift.

Context (zk : zookeeper.Client).
Context (withID : option zookeeper.ClientId -> SessionOpt).

(** A relation between the world before, the effects and the world after,
    and the channels callers may subscribe. *)
Variable R : World -> list Action -> World -> Prop.
Variable allowed : SubChan -> Prop.

Hypothesis R_none : forall w, R w [] w.
Hypothesis R_then : forall w1 l1 w2 l2 w3,
    R w1 l1 w2 -> R w2 l2 w3 -> R w1 (l1 ++ l2) w3.
Hypothesis R_pass : forall expired w ev,
    free w -> next_signal w = Some ev ->
    R w (acts (manage_iter zk withID expired w))
        (post (manage_iter zk withID expired w)).
Hypothesis R_subscribe : forall c w,
    free w -> allowed c ->
    R w (acts (Subscribe c w)) (post (Subscribe c w)).

Lemma tick_lift (sys : System) :
  free (world sys) ->
  R (world sys) (snd (tick zk withID sys)) (world (fst (tick zk withID sys))).
Proof.
  intros Hfree. unfold tick.
  destruct (loop sys) as [expired| |]; try apply R_none.
  destruct (zookeeper.pending (events (sess (world sys)))) as [|ev q] eqn:Hq;
    [apply R_none|].
  assert (Hn : next_signal (world sys) = Some ev)
    by (unfold next_signal; rewrite Hq; reflexivity).
  pose proof (R_pass expired Hfree Hn) as HR.
  destruct (out (manage_iter zk withID expired (world sys))) as [[e'|]| |];
    exact HR.
Qed.

Lemma run_lift (ops : list Op) (sys : System) :
  free (world sys) -> Forall allowed (subscribed ops) ->
  R (world sys) (snd (run zk withID ops sys))
    (world (fst (run zk withID ops sys))).
Proof.
  revert sys. induction ops as [|op ops IH]; intros sys Hfree Hall.
  - apply R_none.
  - rewrite run_cons. cbn [fst snd].
    pose proof (proj1 (@step_summary zk withID op sys Hfree)) as Hfree1.
    destruct op as [|c].
    + cbn [step] in *. eapply R_then; [apply tick_lift; exact Hfree|].
      apply IH; [exact Hfree1|exact Hall].
    + cbn [subscribed flat_map app] in Hall.
      inversion Hall as [|? ? Hc Hall']; subst.
      cbn [step fst snd world] in *.
      eapply R_then; [apply R_subscribe; assumption|].
      apply (IH {| loop := loop sys; world := post (Subscribe c (world sys)) |});
        [exact Hfree1|exact Hall'].
Qed.

End Lift.

(** ** Reading the traces of single passes *)


Lemma installed_app (l1 l2 : list Action) :
  installed (l1 ++ l2) = installed l1 ++ installed l2.
Proof. apply flat_map_app. Qed.

Lemma logs_app (l1 l2 : list Action) : logs (l1 ++ l2) = logs l1 ++ logs l2.
Proof. apply flat_map_app. Qed.

Lemma expiries_taken_app (l1 l2 : list Action) :
  expiries_taken (l1 ++ l2) = expiries_taken l1 ++ expiries_taken l2.
Proof. unfold expiries_taken. rewrite consumed_app. apply filter_app. Qed.

Lemma purge_notices_app (l1 l2 : list Action) :
  purge_notices (l1 ++ l2) = purge_notices l1 ++ purge_notices l2.
Proof. unfold purge_notices. rewrite emitted_app. apply filter_app. Qed.

Lemma fanout_received (sub : SubChan) (subs : list SubChan) e :
  flat_map (fun a => match a with
                     | ASend c e0 => if Nat.eqb c sub then [e0] else []
                     | _ => []
                     end)
           (map (fun c => ASend c e) subs)
  = repeat e (count_occ Nat.eq_dec subs sub).
Proof. exact (received_fanout sub subs e). Qed.

Lemma close_effects_closes zk old lg :
  flat_map (fun a => match a with ACall c ReqClose => [c] | _ => [] end)
           (close_effects zk old lg)
  = handle old.
Proof.
  unfold close_effects, logged. destruct old as [c|]; [|reflexivity].
  cbn [flat_map handle]. destruct (zookeeper.Close zk c); [|reflexivity].
  rewrite pick_log by reflexivity. reflexivity.
Qed.

Lemma logs_of_logged (lines : list string) :
  flat_map (fun a => match a with ALog s => [s] | _ => [] end) (map ALog lines)
  = lines.
Proof.
  induction lines as [|x lines IH]; [reflexivity|].
  cbn [map flat_map app]. rewrite IH. reflexivity.
Qed.

Ltac pick_more :=
  unfold emitted, signals, sends, consumed, redials, writes, received, closes,
         installed, logs, broadcast, logged, redial_action;
  repeat first
    [ rewrite flat_map_app
    | rewrite pick_log by reflexivity
    | rewrite logs_of_logged
    | rewrite pick_send by reflexivity
    | rewrite fanout_received
    | rewrite pick_close by reflexivity
    | rewrite close_effects_closes
    | progress cbn [flat_map app signal_of_action] ].

Lemma guarded_app (held : bool) (l1 l2 : list Action) :
  guarded held (l1 ++ l2)
  = match guarded held l1 with
    | Some held' => guarded held' l2
    | None => None
    end.
Proof.
  revert held. induction l1 as [|a l1 IH]; intros held; [reflexivity|].
  destruct a, held; cbn [app guarded]; try reflexivity; apply IH.
Qed.

Lemma guarded_logged (held : bool) lg format v :
  guarded held (logged lg format v) = Some held.
Proof.
  unfold logged. induction (Printf lg format v) as [|x lines IH];
    [reflexivity|exact IH].
Qed.

Lemma guarded_fanout (subs : list SubChan) e :
  guarded true (map (fun c => ASend c e) subs) = Some true.
Proof. induction subs as [|x subs IH]; [reflexivity|exact IH]. Qed.

Lemma guarded_broadcast (subs : list SubChan) e :
  guarded false (broadcast subs e) = Some false.
Proof.
  unfold broadcast. cbn [guarded]. rewrite guarded_app, guarded_fanout.
  reflexivity.
Qed.

Lemma guarded_close_effects zk old lg :
  guarded true (close_effects zk old lg) = Some true.
Proof.
  unfold close_effects. destruct old as [c|]; [|reflexivity].
  cbn [guarded]. destruct (zookeeper.Close zk c); [|reflexivity].
  apply guarded_logged.
Qed.

Ltac walk_guarded :=
  unfold redial_action;
  repeat first
    [ rewrite guarded_app
    | rewrite guarded_logged
    | rewrite guarded_broadcast
    | rewrite guarded_close_effects
    | progress cbn [guarded app] ].

(** The cases of a pass that takes a signal, with [manage_iter] replaced by
    what it does in each. *)
Ltac pass_cases zk w ev :=
  destruct (state_cases (zookeeper.State ev))
    as [Hs|[Hs|[Hs|[Hs|[Hs|[Hs|Hs]]]]]];
  [ destruct (redial_of zk w) as [conn' events'|err] eqn:Hr;
    [ erewrite iter_expired_redialed by eassumption
    | erewrite iter_expired_failed by eassumption ]
  | erewrite iter_auth_failed by eassumption
  | erewrite iter_connecting by eassumption
  | erewrite iter_associating by eassumption
  | erewrite iter_connected by eassumption
  | erewrite iter_closed by eassumption
  | erewrite iter_other by eassumption ];
  cbn [out post acts].

Section Passes.

Context (zk : zookeeper.Client).
Context (withID : option zookeeper.ClientId -> SessionOpt).

Lemma pass_registry (expired : bool) (w : World) (ev : zookeeper.Event) :
  free w -> next_signal w = Some ev ->
  subscriptions (sess (post (manage_iter zk withID expired w)))
  = subscriptions (sess w)
  /\ log (sess (post (manage_iter zk withID expired w))) = log (sess w).
Proof.
  intros Hfree Hn. pass_cases zk w ev; split; reflexivity.
Qed.

Lemma pass_received (expired : bool) (w : World) (ev : zookeeper.Event)
      (sub : SubChan) :
  free w -> next_signal w = Some ev ->
  received sub (acts (manage_iter zk withID expired w))
  = flat_map (fun x => repeat x (count_occ Nat.eq_dec (subscriptions (sess w)) sub))
             (emitted (acts (manage_iter zk withID expired w))).
Proof.
  intros Hfree Hn.
  pass_cases zk w ev; try destruct expired; pick_more;
    rewrite ?app_nil_r; reflexivity.
Qed.

Lemma pass_guarded (expired : bool) (w : World) (ev : zookeeper.Event) :
  free w -> next_signal w = Some ev ->
  guarded false (acts (manage_iter zk withID expired w)) = Some false.
Proof.
  intros Hfree Hn.
  pass_cases zk w ev; try destruct expired; walk_guarded; reflexivity.
Qed.

Lemma pass_dials (expired : bool) (w : World) (ev : zookeeper.Event) :
  free w -> next_signal w = Some ev ->
  List.length (redials (acts (manage_iter zk withID expired w)))
  = List.length (expiries_taken (acts (manage_iter zk withID expired w)))
  /\ dials (post (manage_iter zk withID expired w))
     = (dials w + List.length (redials (acts (manage_iter zk withID expired w))))%nat.
Proof.
  intros Hfree Hn.
  assert (Hother : ~ recognised (zookeeper.State ev) ->
                   (zookeeper.State ev =? zookeeper.STATE_EXPIRED_SESSION) = false).
  { intros H. apply Z.eqb_neq. intros E. apply H. rewrite E. left. reflexivity. }
  pass_cases zk w ev; try destruct expired; unfold expiries_taken; pick_more;
    cbn [filter]; first [rewrite Hs|rewrite (Hother Hs)];
    cbn; rewrite ?Nat.add_0_r, ?Nat.add_1_r; split; reflexivity.
Qed.


Lemma pass_logs (expired : bool) (w : World) (ev : zookeeper.Event) :
  free w -> next_signal w = Some ev -> log (sess w) = nullLogger ->
  logs (acts (manage_iter zk withID expired w)) = [].
Proof.
  intros Hfree Hn Hlog.
  pass_cases zk w ev; try destruct expired; rewrite ?Hlog;
    unfold close_effects;
    try (destruct (conn (sess w)) as [c|];
         [destruct (zookeeper.Close zk c)|]);
    pick_more; reflexivity.
Qed.

Lemma pass_one_event (expired : bool) (w : World) (ev : zookeeper.Event) :
  free w -> next_signal w = Some ev ->
  (List.length (emitted (acts (manage_iter zk withID expired w)))
   <= List.length (consumed (acts (manage_iter zk withID expired w))))%nat.
Proof.
  intros Hfree Hn.
  pass_cases zk w ev; try destruct expired; pick_more; cbn; auto.
Qed.

Lemma pass_current (expired : bool) (w : World) (ev : zookeeper.Event) :
  free w -> next_signal w = Some ev ->
  conn (sess (post (manage_iter zk withID expired w)))
  = last (map Some (installed (acts (manage_iter zk withID expired w))))
         (conn (sess w)).
Proof.
  intros Hfree Hn.
  pass_cases zk w ev; try destruct expired; pick_more; rewrite ?Hr;
    reflexivity.
Qed.

Lemma pass_stream (expired : bool) (w : World) (ev : zookeeper.Event) :
  free w -> next_signal w = Some ev ->
  installed (acts (manage_iter zk withID expired w)) = [] ->
  zookeeper.pending (events (sess w))
  = consumed (acts (manage_iter zk withID expired w))
    ++ zookeeper.pending (events (sess (post (manage_iter zk withID expired w))))
  /\ zookeeper.chan_id (events (sess (post (manage_iter zk withID expired w))))
     = zookeeper.chan_id (events (sess w)).
Proof.
  intros Hfree Hn.
  assert (Hp : zookeeper.pending (events (sess w))
               = ev :: tl (zookeeper.pending (events (sess w)))).
  { unfold next_signal in Hn.
    destruct (zookeeper.pending (events (sess w))); inversion Hn; reflexivity. }
  pass_cases zk w ev; try destruct expired; pick_more; rewrite ?Hr;
    cbn [app]; intros Hi; try discriminate Hi;
    (split; [exact Hp|reflexivity]).
Qed.

Lemma pass_dial_args (expired : bool) (w : World) (ev : zookeeper.Event) :
  free w -> next_signal w = Some ev ->
  (forall id so, servers (withID id so) = servers so
                 /\ recvTimeout (withID id so) = recvTimeout so) ->
  Forall (fun d => fst (fst (fst d))
                   = strings.Join (servers (opts (sess w))) ","
                   /\ snd (fst (fst d)) = recvTimeout (opts (sess w)))
         (redials (acts (manage_iter zk withID expired w)))
  /\ servers (opts (sess (post (manage_iter zk withID expired w))))
     = servers (opts (sess w))
  /\ recvTimeout (opts (sess (post (manage_iter zk withID expired w))))
     = recvTimeout (opts (sess w)).
Proof.
  intros Hfree Hn Hkeep.
  pass_cases zk w ev; try destruct expired; pick_more;
    (split;
     [ first [ apply Forall_nil
             | apply Forall_cons; [split; reflexivity|apply Forall_nil] ]
     | first [ split; reflexivity | apply Hkeep ] ]).
Qed.

End Passes.

(** ** Properties over schedules *)

Lemma repeat_none {A} (l : list A) : flat_map (fun x => repeat x 0) l = [].
Proof. induction l as [|x l IH]; [reflexivity|exact IH]. Qed.

Lemma signal_of_state_plain (state : Z) (sig : Signal) :
  signal_of_state state = Some sig -> answered_expiries [sig] = [].
Proof.
  unfold signal_of_state.
  repeat match goal with
         | |- context [if ?b then _ else _] => destruct b
         end; intros [= <-]; reflexivity.
Qed.

Lemma answered_installed (l : list Action) :
  List.length (answered_expiries (signals l)) = List.length (installed l).
Proof.
  induction l as [|a l IH]; [reflexivity|].
  change (a :: l) with ([a] ++ l).
  rewrite signals_app, installed_app.
  unfold answered_expiries in *. rewrite filter_app, !length_app, IH.
  f_equal. destruct a; try reflexivity.
  - unfold signals. cbn [flat_map signal_of_action].
    destruct (signal_of_state (zookeeper.State ev)) as [sig|] eqn:Hsig;
      [|reflexivity].
    apply signal_of_state_plain in Hsig. unfold answered_expiries in Hsig.
    cbn [app]. rewrite Hsig. reflexivity.
  - destruct res; reflexivity.
Qed.

Lemma table_purges (sigs : list Signal) (expired : bool) :
  (List.length
     (filter (fun e => match e with SessionExpiredReconnected => true | _ => false end)
             (table_events expired sigs))
   <= (if expired then 1 else 0) + List.length (answered_expiries sigs))%nat.
Proof.
  revert expired. induction sigs as [|sig sigs IH]; intros expired.
  - destruct expired; cbn; auto.
  - pose proof (IH true) as IHt. pose proof (IH false) as IHf.
    unfold answered_expiries in *.
    destruct sig as [| | |[|]| |], expired; cbn in *; lia.
Qed.

Lemma last_after {A} (l1 l2 : list A) (d : A) :
  last (l1 ++ l2) d = last l2 (last l1 d).
Proof.
  revert d. induction l1 as [|a l1 IH]; intros d; [reflexivity|].
  assert (Hhead : forall (l : list A) x y, last (x :: l) y = last l x).
  { intros l. induction l as [|b l IHl]; intros x y; [reflexivity|].
    change (last (x :: b :: l) y) with (last (b :: l) y).
    rewrite !IHl. reflexivity. }
  change ((a :: l1) ++ l2) with (a :: (l1 ++ l2)).
  rewrite !Hhead. apply IH.
Qed.

Lemma sends_logged (lg : stdLogger) (format : string) (v : list LogArg) :
  sends (logged lg format v) = [].
Proof. apply pick_log. reflexivity. Qed.

Lemma sends_broadcast (subs : list SubChan) (e : ZKSessionEvent) :
  sends (broadcast subs e) = map (fun c => (c, e)) subs.
Proof.
  unfold broadcast.
  change (sends (ANotify e :: ALock :: ?l)) with (sends l).
  rewrite sends_app, sends_fanout. apply app_nil_r.
Qed.

Section Extras.

Context (zk : zookeeper.Client).
Context (withID : option zookeeper.ClientId -> SessionOpt).

Lemma run_received (ops : list Op) (sys : System) (sub : SubChan) :
  free (world sys) -> Forall (fun c => c <> sub) (subscribed ops) ->
  count_occ Nat.eq_dec
    (subscriptions (sess (world (fst (run zk withID ops sys))))) sub
  = count_occ Nat.eq_dec (subscriptions (sess (world sys))) sub
  /\ received sub (snd (run zk withID ops sys))
     = flat_map
         (fun x => repeat x (count_occ Nat.eq_dec
                               (subscriptions (sess (world sys))) sub))
         (emitted (snd (run zk withID ops sys))).
Proof.
  apply (@run_lift zk withID
           (fun w l w' =>
              count_occ Nat.eq_dec (subscriptions (sess w')) sub
              = count_occ Nat.eq_dec (subscriptions (sess w)) sub
              /\ received sub l
                 = flat_map
                     (fun x => repeat x (count_occ Nat.eq_dec
                                           (subscriptions (sess w)) sub))
                     (emitted l))
           (fun c => c <> sub)).
  - intros w. split; reflexivity.
  - intros w1 l1 w2 l2 w3 [Hc1 Hr1] [Hc2 Hr2]. split; [congruence|].
    rewrite received_app, emitted_app, flat_map_app, Hr1, Hr2, Hc1.
    reflexivity.
  - intros expired w ev Hfree Hn. split.
    + rewrite (proj1 (@pass_registry zk withID expired w ev Hfree Hn)).
      reflexivity.
    + eapply pass_received; eassumption.
  - intros c w Hfree Hc. rewrite (@Subscribe_free c w Hfree).
    cbn [post acts sess subscriptions with_subscriptions]. split.
    + rewrite count_occ_app. cbn [count_occ].
      destruct (Nat.eq_dec c sub) as [E|_]; [contradiction|].
      apply Nat.add_0_r.
    + reflexivity.
Qed.

(** X1.  The subscriber list only grows, and only by [Subscribe]: after any
    schedule it is the list from before followed by the channels subscribed,
    in the order of the calls, duplicates kept; the loop never touches it,
    nor the logger. *)
Theorem subscriptions_append_only (ops : list Op) (sys : System) :
  free (world sys) ->
  subscriptions (sess (world (fst (run zk withID ops sys))))
  = subscriptions (sess (world sys)) ++ subscribed ops
  /\ log (sess (world (fst (run zk withID ops sys)))) = log (sess (world sys)).
Proof.
  revert sys. induction ops as [|op ops IH]; intros sys Hfree.
  - cbn. rewrite app_nil_r. split; reflexivity.
  - rewrite run_cons. cbn [fst].
    pose proof (proj1 (@step_summary zk withID op sys Hfree)) as Hfree1.
    destruct (IH _ Hfree1) as [Hsubs Hlog]. rewrite Hsubs, Hlog.
    destruct op as [|c].
    + cbn [step subscribed flat_map app].
      assert (Hkeep :
                subscriptions (sess (world (fst (tick zk withID sys))))
                = subscriptions (sess (world sys))
                /\ log (sess (world (fst (tick zk withID sys))))
                   = log (sess (world sys))).
      { apply (@tick_lift zk withID
                 (fun w _ w' => subscriptions (sess w') = subscriptions (sess w)
                                /\ log (sess w') = log (sess w))).
        - intros w. split; reflexivity.
        - intros expired w ev Hf Hn. eapply pass_registry; eassumption.
        - exact Hfree. }
      destruct Hkeep as [-> ->]. split; reflexivity.
    + cbn [step fst world subscribed flat_map].
      rewrite (@Subscribe_free c (world sys) Hfree).
      cbn [post sess subscriptions with_subscriptions log].
      rewrite <- app_assoc. split; reflexivity.
Qed.

(** X2.  Over any schedule, a channel receives every event the loop emits,
    in the order of emission, as many times as it is registered, provided no
    caller subscribes it again meanwhile; registered once, it receives
    exactly the events emitted. *)
Theorem subscriber_sees_every_event
    (ops : list Op) (sys : System) (sub : SubChan) :
  free (world sys) -> Forall (fun c => c <> sub) (subscribed ops) ->
  received sub (snd (run zk withID ops sys))
  = flat_map
      (fun x => repeat x (count_occ Nat.eq_dec
                            (subscriptions (sess (world sys))) sub))
      (emitted (snd (run zk withID ops sys)))
  /\ (count_occ Nat.eq_dec (subscriptions (sess (world sys))) sub = 1%nat ->
      received sub (snd (run zk withID ops sys))
      = emitted (snd (run zk withID ops sys))).
Proof.
  intros Hfree Hall.
  destruct (@run_received ops sys sub Hfree Hall) as [_ Hr].
  split; [exact Hr|].
  intros Hone. rewrite Hr, Hone. apply repeat_once.
Qed.

(** X3.  A channel subscribed in the middle of a schedule, and not known to
    the session otherwise, receives nothing of what was emitted before the
    call and exactly the events emitted after it. *)
Theorem late_subscriber_sees_later_events
    (ops1 ops2 : list Op) (sys : System) (c : SubChan) :
  free (world sys) ->
  ~ In c (subscriptions (sess (world sys))) ->
  ~ In c (subscribed ops1) -> ~ In c (subscribed ops2) ->
  received c (snd (run zk withID (ops1 ++ CallSubscribe c :: ops2) sys))
  = emitted (snd (run zk withID ops2
                    (fst (step zk withID (CallSubscribe c)
                            (fst (run zk withID ops1 sys)))))).
Proof.
  intros Hfree Hnew Hnot1 Hnot2.
  assert (Hall : forall ops, ~ In c (subscribed ops) ->
                             Forall (fun x => x <> c) (subscribed ops)).
  { intros ops Hnot. apply Forall_forall. intros x Hx ->. exact (Hnot Hx). }
  rewrite run_app, run_cons. cbn [fst snd].
  rewrite !received_app.
  destruct (@run_received ops1 sys c Hfree (Hall _ Hnot1)) as [Hc1 Hr1].
  rewrite (proj1 (count_occ_not_In Nat.eq_dec _ _) Hnew) in Hc1, Hr1.
  rewrite Hr1, repeat_none.
  pose proof (@run_free zk withID ops1 sys Hfree) as Hfree1.
  set (sys1 := fst (run zk withID ops1 sys)) in *.
  pose proof (proj1 (@step_summary zk withID (CallSubscribe c) sys1 Hfree1))
    as Hfree2.
  destruct (@run_received ops2 _ c Hfree2 (Hall _ Hnot2)) as [_ Hr2].
  rewrite Hr2. cbn [step fst snd world].
  rewrite (@Subscribe_free c (world sys1) Hfree1).
  cbn [post acts sess subscriptions with_subscriptions].
  rewrite count_occ_app. unfold SubChan in *. rewrite Hc1. cbn [count_occ].
  destruct (Nat.eq_dec c c) as [_|Hne]; [|contradiction Hne; reflexivity].
  cbn [app Nat.add]. apply repeat_once.
Qed.

(** X4.  The mutex is used consistently over any schedule: it is never
    locked while held nor unlocked while free, every send to a subscriber
    and every assignment to a field of the session happens while it is
    held, and it is free again in the end. *)
Theorem mutex_discipline (ops : list Op) (sys : System) :
  free (world sys) ->
  guarded false (snd (run zk withID ops sys)) = Some false
  /\ free (world (fst (run zk withID ops sys))).
Proof.
  intros Hfree. split; [|apply run_free; exact Hfree].
  apply (@run_lift zk withID
           (fun _ l _ => guarded false l = Some false) (fun _ => True)).
  - reflexivity.
  - intros w1 l1 w2 l2 w3 H1 H2. rewrite guarded_app, H1. exact H2.
  - intros expired w ev Hf Hn. eapply pass_guarded; eassumption.
  - intros c w Hf _. rewrite (@Subscribe_free c w Hf). reflexivity.
  - exact Hfree.
  - apply Forall_forall. intros; exact I.
Qed.

(** X5.  Started with the mutex free, the loop never stops inside a pass,
    whatever the signals, the redials and the callers of [Subscribe]: it
    neither panics nor waits for a mutex it holds itself.  It is either
    about to make another pass or has returned. *)
Theorem loop_never_stuck (ops : list Op) (w : World) (expired : bool) :
  free w ->
  loop (fst (run zk withID ops {| loop := Running expired; world := w |}))
  <> Stuck.
Proof.
  intros Hfree.
  destruct (@run_table zk withID ops {| loop := Running expired; world := w |}
              expired Hfree eq_refl) as (_ & ->).
  destruct (table_state expired _); discriminate.
Qed.

(** X6.  The loop dials once for every expiry signal it takes and for
    nothing else: over any schedule there are as many redials as expiry
    signals taken, none on a plain disconnect and no second attempt after a
    failure, and the count of dials grows by that number. *)
Theorem one_dial_per_expiry (ops : list Op) (sys : System) :
  free (world sys) ->
  List.length (redials (snd (run zk withID ops sys)))
  = List.length (expiries_taken (snd (run zk withID ops sys)))
  /\ dials (world (fst (run zk withID ops sys)))
     = (dials (world sys)
        + List.length (redials (snd (run zk withID ops sys))))%nat.
Proof.
  intros Hfree.
  apply (@run_lift zk withID
           (fun w l w' =>
              List.length (redials l) = List.length (expiries_taken l)
              /\ dials w' = (dials w + List.length (redials l))%nat)
           (fun _ => True)).
  - intros w. cbn. auto.
  - intros w1 l1 w2 l2 w3 [H1 D1] [H2 D2].
    rewrite redials_app, expiries_taken_app, !length_app. lia.
  - intros expired w ev Hf Hn. eapply pass_dials; eassumption.
  - intros c w Hf _. rewrite (@Subscribe_free c w Hf). cbn. auto.
  - exact Hfree.
  - apply Forall_forall. intros; exact I.
Qed.


(** X8.  When the redial that answers an expiry fails, the loop gives up at
    once: it broadcasts [SessionFailed] to every subscriber, logs the
    error's text and returns, without closing the handle it has and without
    assigning to any field, so that handle, stream and options with the
    token stay as they were. *)
Theorem failed_redial_gives_up
    (expired : bool) (w : World) (ev : zookeeper.Event) (err : error) :
  free w -> next_signal w = Some ev ->
  zookeeper.State ev = zookeeper.STATE_EXPIRED_SESSION ->
  redial_of zk w = zookeeper.RedialErr err ->
  out (manage_iter zk withID expired w) = Done Return
  /\ emitted (acts (manage_iter zk withID expired w)) = [SessionFailed]
  /\ sends (acts (manage_iter zk withID expired w))
     = map (fun c => (c, SessionFailed)) (subscriptions (sess w))
  /\ closes (acts (manage_iter zk withID expired w)) = []
  /\ writes (acts (manage_iter zk withID expired w)) = []
  /\ logs (acts (manage_iter zk withID expired w))
     = Printf (log (sess w))
         "gozk-recipes/session: got STATE_EXPIRED_SESSION for conn %+v"
         [ArgConn (conn (sess w))]
       ++ Printf (log (sess w))
            "gozk-recipes/session.SessionFailed: %s, session terminated"
            [ArgStr err]
  /\ conn (sess (post (manage_iter zk withID expired w))) = conn (sess w)
  /\ opts (sess (post (manage_iter zk withID expired w))) = opts (sess w)
  /\ zookeeper.chan_id (events (sess (post (manage_iter zk withID expired w))))
     = zookeeper.chan_id (events (sess w)).
Proof.
  intros Hfree Hn Hs Hr.
  rewrite (@iter_expired_failed zk withID expired w ev err Hfree Hn Hs Hr).
  cbn [out post acts].
  split; [reflexivity|].
  split; [pick_more; reflexivity|].
  split.
  { change (sends (ARecv ev :: ?l)) with (sends l).
    rewrite sends_app, sends_logged.
    change (sends (redial_action zk w :: ?l)) with (sends l).
    rewrite sends_app, sends_broadcast, sends_logged. apply app_nil_r. }
  split; [pick_more; reflexivity|].
  split; [pick_more; reflexivity|].
  split; [pick_more; rewrite ?app_nil_r; reflexivity|].
  repeat split.
Qed.

(** X9.  A session whose logger is the no-op logger never writes a log
    line, whatever the loop goes through, and keeps that logger. *)
Theorem null_logger_is_silent (ops : list Op) (sys : System) :
  free (world sys) -> log (sess (world sys)) = nullLogger ->
  logs (snd (run zk withID ops sys)) = []
  /\ log (sess (world (fst (run zk withID ops sys)))) = nullLogger.
Proof.
  intros Hfree.
  apply (@run_lift zk withID
           (fun w l w' =>
              log (sess w) = nullLogger ->
              logs l = [] /\ log (sess w') = nullLogger)
           (fun _ => True)).
  - intros w H. split; [reflexivity|exact H].
  - intros w1 l1 w2 l2 w3 H1 H2 Hlog.
    destruct (H1 Hlog) as [L1 Hlog2]. destruct (H2 Hlog2) as [L2 Hlog3].
    rewrite logs_app, L1, L2. split; [reflexivity|exact Hlog3].
  - intros expired w ev Hf Hn Hlog. split.
    + eapply pass_logs; eassumption.
    + rewrite (proj2 (@pass_registry zk withID expired w ev Hf Hn)).
      exact Hlog.
  - intros c w Hf _ Hlog. rewrite (@Subscribe_free c w Hf).
    split; [reflexivity|exact Hlog].
  - exact Hfree.
  - apply Forall_forall. intros; exact I.
Qed.

(** X10.  The loop emits at most one lifecycle event for each signal it
    takes, and none without a signal: over any schedule there are at most as
    many events as signals taken. *)
Theorem at_most_one_event_per_signal (ops : list Op) (sys : System) :
  free (world sys) ->
  (List.length (emitted (snd (run zk withID ops sys)))
   <= List.length (consumed (snd (run zk withID ops sys))))%nat.
Proof.
  intros Hfree.
  apply (@run_lift zk withID
           (fun _ l _ =>
              (List.length (emitted l) <= List.length (consumed l))%nat)
           (fun _ => True)).
  - intros w. apply le_n.
  - intros w1 l1 w2 l2 w3 H1 H2.
    rewrite emitted_app, consumed_app, !length_app. lia.
  - intros expired w ev Hf Hn. eapply pass_one_event; eassumption.
  - intros c w Hf _. rewrite (@Subscribe_free c w Hf). cbn. auto.
  - exact Hfree.
  - apply Forall_forall. intros; exact I.
Qed.

(** X11.  Subscribers are told that the ephemeral nodes were purged only
    after a redial has succeeded, and at most once for each: over any
    schedule of a loop started with [expired = false], there are at most as
    many [SessionExpiredReconnected] events as successful redials. *)
Theorem purge_notice_needs_redial (ops : list Op) (w : World) :
  free w ->
  (List.length
     (purge_notices (snd (run zk withID ops
                            {| loop := Running false; world := w |})))
   <= List.length
        (installed (snd (run zk withID ops
                           {| loop := Running false; world := w |}))))%nat.
Proof.
  intros Hfree. unfold purge_notices.
  rewrite (proj1 (@run_table zk withID ops
                    {| loop := Running false; world := w |} false Hfree eq_refl)).
  rewrite <- answered_installed.
  apply (table_purges _ false).
Qed.

(** X13.  After any schedule the session's handle is the one the last
    successful redial returned, or the handle it started with when none
    succeeded; a pass-through operation called then is issued on exactly
    that handle, once, and returns the library's answer. *)
Theorem passthrough_uses_latest_handle
    {A} (ops : list Op) (sys : System) (req : Request)
    (answer : zookeeper.Conn -> A) :
  free (world sys) ->
  conn (sess (world (fst (run zk withID ops sys))))
  = last (map Some (installed (snd (run zk withID ops sys))))
         (conn (sess (world sys)))
  /\ forall c,
       last (map Some (installed (snd (run zk withID ops sys))))
            (conn (sess (world sys))) = Some c ->
       through req answer (world (fst (run zk withID ops sys)))
       = MkRun (Done (answer c)) (world (fst (run zk withID ops sys)))
           [ACall c req].
Proof.
  intros Hfree.
  assert (Hlast :
            conn (sess (world (fst (run zk withID ops sys))))
            = last (map Some (installed (snd (run zk withID ops sys))))
                   (conn (sess (world sys)))).
  { apply (@run_lift zk withID
             (fun w l w' =>
                conn (sess w') = last (map Some (installed l)) (conn (sess w)))
             (fun _ => True)).
    - reflexivity.
    - intros w1 l1 w2 l2 w3 H1 H2.
      rewrite installed_app, map_app, last_after, <- H1. exact H2.
    - intros expired w ev Hf Hn. eapply pass_current; eassumption.
    - intros c w Hf _. rewrite (@Subscribe_free c w Hf). reflexivity.
    - exact Hfree.
    - apply Forall_forall. intros; exact I. }
  split; [exact Hlast|].
  intros c Hc. rewrite <- Hlast in Hc.
  unfold through, call, bind, gets, emit, ret. cbn. rewrite Hc. reflexivity.
Qed.

(** X14.  Until a redial succeeds, the loop reads one stream and takes its
    signals in order, none skipped and none twice: the signals waiting at
    the start are those taken followed by those still waiting. *)
Theorem signals_taken_in_order (ops : list Op) (sys : System) :
  free (world sys) ->
  installed (snd (run zk withID ops sys)) = [] ->
  zookeeper.pending (events (sess (world sys)))
  = consumed (snd (run zk withID ops sys))
    ++ zookeeper.pending (events (sess (world (fst (run zk withID ops sys)))))
  /\ zookeeper.chan_id (events (sess (world (fst (run zk withID ops sys)))))
     = zookeeper.chan_id (events (sess (world sys))).
Proof.
  intros Hfree.
  apply (@run_lift zk withID
           (fun w l w' =>
              installed l = [] ->
              zookeeper.pending (events (sess w))
              = consumed l ++ zookeeper.pending (events (sess w'))
              /\ zookeeper.chan_id (events (sess w'))
                 = zookeeper.chan_id (events (sess w)))
           (fun _ => True)).
  - intros w _. split; reflexivity.
  - intros w1 l1 w2 l2 w3 H1 H2 Hi.
    rewrite installed_app in Hi. apply app_eq_nil in Hi. destruct Hi as [I1 I2].
    destruct (H1 I1) as [P1 C1]. destruct (H2 I2) as [P2 C2].
    rewrite consumed_app, <- app_assoc, <- P2, <- P1, C2, C1.
    split; reflexivity.
  - intros expired w ev Hf Hn. eapply pass_stream; eassumption.
  - intros c w Hf _ _. rewrite (@Subscribe_free c w Hf). split; reflexivity.
  - exact Hfree.
  - apply Forall_forall. intros; exact I.
Qed.

(** X15.  Every redial of a session goes to the servers and uses the
    receive timeout the session was configured with: the address string is
    the configured servers joined by commas, in every dial of any schedule,
    since the loop changes the options only through the client id option.
    That option is taken to leave servers and timeout alone. *)
Theorem redials_use_configured_servers (ops : list Op) (sys : System) :
  free (world sys) ->
  (forall id so, servers (withID id so) = servers so
                 /\ recvTimeout (withID id so) = recvTimeout so) ->
  Forall (fun d => fst (fst (fst d))
                   = strings.Join (servers (opts (sess (world sys)))) ","
                   /\ snd (fst (fst d)) = recvTimeout (opts (sess (world sys))))
         (redials (snd (run zk withID ops sys)))
  /\ servers (opts (sess (world (fst (run zk withID ops sys)))))
     = servers (opts (sess (world sys)))
  /\ recvTimeout (opts (sess (world (fst (run zk withID ops sys)))))
     = recvTimeout (opts (sess (world sys))).
Proof.
  intros Hfree Hkeep.
  apply (@run_lift zk withID
           (fun w l w' =>
              Forall (fun d => fst (fst (fst d))
                               = strings.Join (servers (opts (sess w))) ","
                               /\ snd (fst (fst d)) = recvTimeout (opts (sess w)))
                     (redials l)
              /\ servers (opts (sess w')) = servers (opts (sess w))
              /\ recvTimeout (opts (sess w')) = recvTimeout (opts (sess w)))
           (fun _ => True)).
  - intros w. split; [apply Forall_nil|split; reflexivity].
  - intros w1 l1 w2 l2 w3 (F1 & S1 & T1) (F2 & S2 & T2).
    rewrite redials_app. split; [|split; congruence].
    apply Forall_app. split; [exact F1|].
    rewrite S1, T1 in F2. exact F2.
  - intros expired w ev Hf Hn. eapply pass_dial_args; eassumption.
  - intros c w Hf _. rewrite (@Subscribe_free c w Hf).
    split; [apply Forall_nil|split; reflexivity].
  - exact Hfree.
  - apply Forall_forall. intros; exact I.
Qed.

(** X16.  [Subscribe] and [notifySubscribers] both wait for the mutex:
    while another goroutine holds it, [Subscribe] registers nothing and
    [notifySubscribers] sends nothing, and the session is left as it is. *)
Theorem held_mutex_blocks_registry
    (w : World) (c : SubChan) (e : ZKSessionEvent) :
  mu (sess w) = true ->
  Subscribe c w = MkRun Parked w []
  /\ out (notifySubscribers e w) = Parked
  /\ post (notifySubscribers e w) = w
  /\ sends (acts (notifySubscribers e w)) = [].
Proof.
  intros Hheld.
  unfold Subscribe, notifySubscribers, Lock, bind, gets, emit, park.
  cbn. rewrite Hheld. cbn. auto.
Qed.

End Extras.


(** ** The properties on the sample sessions *)

Lemma subscriptions_append_only_witness :
  free (world (Sample.system Sample.states))
  /\ subscriptions
       (sess (world (fst (Sample.result Sample.schedule Sample.states))))
     = subscriptions (sess (world (Sample.system Sample.states)))
       ++ subscribed Sample.schedule
  /\ log (sess (world (fst (Sample.result Sample.schedule Sample.states))))
     = log (sess (world (Sample.system Sample.states))).
Proof.
  split; [reflexivity|].
  apply (@subscriptions_append_only
           Demo.zk Demo.WithZookeeperClientID Sample.schedule
           (Sample.system Sample.states)).
  reflexivity.
Defined.

Lemma subscriber_sees_every_event_witness :
  free (world (Sample.system Sample.states))
  /\ Forall (fun c => c <> 10%nat) (subscribed Sample.schedule)
  /\ received 10%nat (snd (Sample.result Sample.schedule Sample.states))
     = flat_map
         (fun x => repeat x
                     (count_occ Nat.eq_dec
                        (subscriptions
                           (sess (world (Sample.system Sample.states))))
                        10%nat))
         (emitted (snd (Sample.result Sample.schedule Sample.states)))
  /\ (count_occ Nat.eq_dec
        (subscriptions (sess (world (Sample.system Sample.states)))) 10%nat
      = 1%nat ->
      received 10%nat (snd (Sample.result Sample.schedule Sample.states))
      = emitted (snd (Sample.result Sample.schedule Sample.states))).
Proof.
  split; [reflexivity|].
  split; [repeat constructor; discriminate|].
  apply (@subscriber_sees_every_event
           Demo.zk Demo.WithZookeeperClientID Sample.schedule
           (Sample.system Sample.states) 10%nat).
  - reflexivity.
  - repeat constructor. discriminate.
Defined.

Lemma late_subscriber_sees_later_events_witness :
  free (world (Sample.system Sample.plain))
  /\ ~ In 12%nat (subscriptions (sess (world (Sample.system Sample.plain))))
  /\ ~ In 12%nat (subscribed [Tick])
  /\ ~ In 12%nat (subscribed [Tick; Tick])
  /\ received 12%nat
       (snd (run Demo.zk Demo.WithZookeeperClientID
               ([Tick] ++ CallSubscribe 12%nat :: [Tick; Tick])
               (Sample.system Sample.plain)))
     = emitted
         (snd (run Demo.zk Demo.WithZookeeperClientID [Tick; Tick]
                 (fst (step Demo.zk Demo.WithZookeeperClientID
                         (CallSubscribe 12%nat)
                         (fst (run Demo.zk Demo.WithZookeeperClientID [Tick]
                                 (Sample.system Sample.plain))))))).
Proof.
  assert (H0 : ~ In 12%nat
                 (subscriptions (sess (world (Sample.system Sample.plain)))))
    by (cbn; intros [H|[H|[]]]; discriminate H).
  assert (H1 : ~ In 12%nat (subscribed [Tick])) by (cbn; intros []).
  assert (H2 : ~ In 12%nat (subscribed [Tick; Tick])) by (cbn; intros []).
  split; [reflexivity|]. split; [exact H0|]. split; [exact H1|].
  split; [exact H2|].
  apply (@late_subscriber_sees_later_events
           Demo.zk Demo.WithZookeeperClientID [Tick] [Tick; Tick]
           (Sample.system Sample.plain) 12%nat);
    [reflexivity|exact H0|exact H1|exact H2].
Defined.

Lemma mutex_discipline_witness :
  free (world (Sample.system Sample.states))
  /\ guarded false (snd (Sample.result Sample.schedule Sample.states))
     = Some false
  /\ free (world (fst (Sample.result Sample.schedule Sample.states))).
Proof.
  split; [reflexivity|].
  apply (@mutex_discipline
           Demo.zk Demo.WithZookeeperClientID Sample.schedule
           (Sample.system Sample.states)).
  reflexivity.
Defined.

Lemma loop_never_stuck_witness :
  free (Demo.world Sample.states)
  /\ loop (fst (run Demo.zk Demo.WithZookeeperClientID Sample.schedule
                  {| loop := Running false;
                     world := Demo.world Sample.states |}))
     <> Stuck.
Proof.
  split; [reflexivity|].
  apply (@loop_never_stuck
           Demo.zk Demo.WithZookeeperClientID Sample.schedule
           (Demo.world Sample.states) false).
  reflexivity.
Defined.

Lemma one_dial_per_expiry_witness :
  free (world (Sample.system Sample.states))
  /\ List.length (redials (snd (Sample.result Sample.schedule Sample.states)))
     = List.length
         (expiries_taken (snd (Sample.result Sample.schedule Sample.states)))
  /\ dials (world (fst (Sample.result Sample.schedule Sample.states)))
     = (dials (world (Sample.system Sample.states))
        + List.length
            (redials (snd (Sample.result Sample.schedule Sample.states))))%nat.
Proof.
  split; [reflexivity|].
  apply (@one_dial_per_expiry
           Demo.zk Demo.WithZookeeperClientID Sample.schedule
           (Sample.system Sample.states)).
  reflexivity.
Defined.


Lemma failed_redial_gives_up_witness :
  free Sample.redialed_once
  /\ next_signal Sample.redialed_once
     = Some (Demo.session_event zookeeper.STATE_EXPIRED_SESSION)
  /\ zookeeper.State (Demo.session_event zookeeper.STATE_EXPIRED_SESSION)
     = zookeeper.STATE_EXPIRED_SESSION
  /\ redial_of Demo.zk Sample.redialed_once
     = zookeeper.RedialErr "no server answered"
  /\ out (manage_iter Demo.zk Demo.WithZookeeperClientID false
            Sample.redialed_once) = Done Return
  /\ emitted (acts (manage_iter Demo.zk Demo.WithZookeeperClientID false
                      Sample.redialed_once)) = [SessionFailed]
  /\ sends (acts (manage_iter Demo.zk Demo.WithZookeeperClientID false
                    Sample.redialed_once))
     = map (fun c => (c, SessionFailed))
           (subscriptions (sess Sample.redialed_once))
  /\ closes (acts (manage_iter Demo.zk Demo.WithZookeeperClientID false
                     Sample.redialed_once)) = []
  /\ writes (acts (manage_iter Demo.zk Demo.WithZookeeperClientID false
                     Sample.redialed_once)) = []
  /\ logs (acts (manage_iter Demo.zk Demo.WithZookeeperClientID false
                   Sample.redialed_once))
     = Printf (log (sess Sample.redialed_once))
         "gozk-recipes/session: got STATE_EXPIRED_SESSION for conn %+v"
         [ArgConn (conn (sess Sample.redialed_once))]
       ++ Printf (log (sess Sample.redialed_once))
            "gozk-recipes/session.SessionFailed: %s, session terminated"
            [ArgStr "no server answered"]
  /\ conn (sess (post (manage_iter Demo.zk Demo.WithZookeeperClientID false
                         Sample.redialed_once)))
     = conn (sess Sample.redialed_once)
  /\ opts (sess (post (manage_iter Demo.zk Demo.WithZookeeperClientID false
                         Sample.redialed_once)))
     = opts (sess Sample.redialed_once)
  /\ zookeeper.chan_id
       (events (sess (post (manage_iter Demo.zk Demo.WithZookeeperClientID
                              false Sample.redialed_once))))
     = zookeeper.chan_id (events (sess Sample.redialed_once)).
Proof.
  split; [reflexivity|]. split; [reflexivity|]. split; [reflexivity|].
  split; [reflexivity|].
  apply (@failed_redial_gives_up
           Demo.zk Demo.WithZookeeperClientID false Sample.redialed_once
           (Demo.session_event zookeeper.STATE_EXPIRED_SESSION)
           "no server answered");
    reflexivity.
Defined.

Lemma null_logger_is_silent_witness :
  free (world (Sample.silent Sample.states))
  /\ log (sess (world (Sample.silent Sample.states))) = nullLogger
  /\ logs (snd (run Demo.zk Demo.WithZookeeperClientID Sample.schedule
                  (Sample.silent Sample.states))) = []
  /\ log (sess (world (fst (run Demo.zk Demo.WithZookeeperClientID
                              Sample.schedule
                              (Sample.silent Sample.states)))))
     = nullLogger.
Proof.
  split; [reflexivity|]. split; [reflexivity|].
  apply (@null_logger_is_silent
           Demo.zk Demo.WithZookeeperClientID Sample.schedule
           (Sample.silent Sample.states));
    reflexivity.
Defined.

Lemma at_most_one_event_per_signal_witness :
  free (world (Sample.system Sample.states))
  /\ (List.length (emitted (snd (Sample.result Sample.schedule Sample.states)))
      <= List.length
           (consumed (snd (Sample.result Sample.schedule Sample.states))))%nat.
Proof.
  split; [reflexivity|].
  apply (@at_most_one_event_per_signal
           Demo.zk Demo.WithZookeeperClientID Sample.schedule
           (Sample.system Sample.states)).
  reflexivity.
Defined.

Lemma purge_notice_needs_redial_witness :
  free (Demo.world Sample.states)
  /\ (List.length
        (purge_notices
           (snd (run Demo.zk Demo.WithZookeeperClientID Sample.schedule
                   {| loop := Running false;
                      world := Demo.world Sample.states |})))
      <= List.length
           (installed
              (snd (run Demo.zk Demo.WithZookeeperClientID Sample.schedule
                      {| loop := Running false;
                         world := Demo.world Sample.states |}))))%nat.
Proof.
  split; [reflexivity|].
  apply (@purge_notice_needs_redial
           Demo.zk Demo.WithZookeeperClientID Sample.schedule
           (Demo.world Sample.states)).
  reflexivity.
Defined.

Lemma passthrough_uses_latest_handle_witness :
  free (world (Sample.system Sample.states))
  /\ conn (sess (world (fst (Sample.result Sample.schedule Sample.states))))
     = last (map Some
               (installed (snd (Sample.result Sample.schedule Sample.states))))
            (conn (sess (world (Sample.system Sample.states))))
  /\ forall c,
       last (map Some
               (installed (snd (Sample.result Sample.schedule Sample.states))))
            (conn (sess (world (Sample.system Sample.states)))) = Some c ->
       through (ReqGet "/lock") (fun c => zookeeper.Get Demo.zk c "/lock")
               (world (fst (Sample.result Sample.schedule Sample.states)))
       = MkRun (Done (zookeeper.Get Demo.zk c "/lock"))
           (world (fst (Sample.result Sample.schedule Sample.states)))
           [ACall c (ReqGet "/lock")].
Proof.
  split; [reflexivity|].
  apply (@passthrough_uses_latest_handle
           Demo.zk Demo.WithZookeeperClientID _ Sample.schedule
           (Sample.system Sample.states) (ReqGet "/lock")
           (fun c => zookeeper.Get Demo.zk c "/lock")).
  reflexivity.
Defined.

Lemma signals_taken_in_order_witness :
  free (world (Sample.system Sample.plain))
  /\ installed (snd (Sample.result Sample.schedule Sample.plain)) = []
  /\ zookeeper.pending (events (sess (world (Sample.system Sample.plain))))
     = consumed (snd (Sample.result Sample.schedule Sample.plain))
       ++ zookeeper.pending
            (events (sess (world (fst (Sample.result Sample.schedule
                                         Sample.plain)))))
  /\ zookeeper.chan_id
       (events (sess (world (fst (Sample.result Sample.schedule
                                    Sample.plain)))))
     = zookeeper.chan_id (events (sess (world (Sample.system Sample.plain)))).
Proof.
  split; [reflexivity|]. split; [reflexivity|].
  apply (@signals_taken_in_order
           Demo.zk Demo.WithZookeeperClientID Sample.schedule
           (Sample.system Sample.plain));
    reflexivity.
Defined.

Lemma redials_use_configured_servers_witness :
  free (world (Sample.system Sample.states))
  /\ (forall id so,
         servers (Demo.WithZookeeperClientID id so) = servers so
         /\ recvTimeout (Demo.WithZookeeperClientID id so) = recvTimeout so)
  /\ Forall (fun d =>
               fst (fst (fst d))
               = strings.Join
                   (servers (opts (sess (world (Sample.system Sample.states)))))
                   ","
               /\ snd (fst (fst d))
                  = recvTimeout
                      (opts (sess (world (Sample.system Sample.states)))))
            (redials (snd (Sample.result Sample.schedule Sample.states)))
  /\ servers
       (opts (sess (world (fst (Sample.result Sample.schedule Sample.states)))))
     = servers (opts (sess (world (Sample.system Sample.states))))
  /\ recvTimeout
       (opts (sess (world (fst (Sample.result Sample.schedule Sample.states)))))
     = recvTimeout (opts (sess (world (Sample.system Sample.states)))).
Proof.
  split; [reflexivity|].
  split; [intros id so; split; reflexivity|].
  apply (@redials_use_configured_servers
           Demo.zk Demo.WithZookeeperClientID Sample.schedule
           (Sample.system Sample.states)).
  - reflexivity.
  - intros id so. split; reflexivity.
Defined.

Lemma held_mutex_blocks_registry_witness :
  mu (sess Demo.held_world) = true
  /\ Subscribe 12%nat Demo.held_world = MkRun Parked Demo.held_world []
  /\ out (notifySubscribers SessionClosed Demo.held_world) = Parked
  /\ post (notifySubscribers SessionClosed Demo.held_world) = Demo.held_world
  /\ sends (acts (notifySubscribers SessionClosed Demo.held_world)) = [].
Proof.
  split; [reflexivity|].
  apply (@held_mutex_blocks_registry Demo.held_world 12%nat SessionClosed).
  reflexivity.
Defined.

